(** * The decision and fusion engine of [ocr.py]

    A shallow embedding of the text normaliser, the candidate scorer, the
    three field repair rules, the rotation selector, the field reader and the
    per-group evaluator of [ocr.py], followed by the properties of the
    specification that concern them.

    Conventions of the embedding.
    - A Python [str] is a Rocq [string]; one [ascii] is one code point of the
      Latin-1 repertoire (0..255), so the character classes of Python
      ([str.isspace], [str.isdigit], [str.lower], the regex class [\d]) are
      the Latin-1 restrictions of the Unicode ones.
    - A Python [float] is an IEEE 754 binary64 number: [spec_float] of the
      standard library with precision 53 and maximal exponent 1024, with
      round-to-nearest-even arithmetic.
    - [None] is [option]'s [None].
    - The image filters of OpenCV and the PaddleOCR recogniser are external:
      they are the variables of the section [Engine]. *)

From Stdlib Require Import ZArith List String Ascii Bool Lia.
From Stdlib Require Import Floats.SpecFloat.
From Stdlib Require Import Sorting.Sorted.
From stdpp Require Import base list strings gmap.

Open Scope string_scope.

(* ===================================================================== *)
(** * Part I: definitions                                                  *)
(* ===================================================================== *)

(** ** Python strings over Latin-1 *)

Module PyStr.

Definition between (lo hi : N) (c : ascii) : bool :=
  ((lo <=? N_of_ascii c) && (N_of_ascii c <=? hi))%N.

(** [str.isspace] on one character: TAB..CR, FS..US and SPACE, NEL, NBSP. *)
Definition isspace (c : ascii) : bool :=
  between 9 13 c || between 28 32 c
  || (N_of_ascii c =? 133)%N || (N_of_ascii c =? 160)%N.

(** The regex class [\d] (Unicode category Nd), which below 256 is [0-9];
    also the class [0-9] itself. *)
Definition is_decimal (c : ascii) : bool := between 48 57 c.

(** [str.isdigit] on one character: the decimal digits and the superscripts
    two, three and one. *)
Definition isdigit_char (c : ascii) : bool :=
  is_decimal c
  || (N_of_ascii c =? 178)%N || (N_of_ascii c =? 179)%N
  || (N_of_ascii c =? 185)%N.

Definition is_sign (c : ascii) : bool :=
  Ascii.eqb c "+" || Ascii.eqb c "-".

(** [str.lower] on one character: A..Z and the accented capitals
    U+00C0..U+00DE (the multiplication sign U+00D7 apart) move up by 32. *)
Definition lower_char (c : ascii) : ascii :=
  if between 65 90 c || (between 192 222 c && negb (N_of_ascii c =? 215)%N)
  then ascii_of_N (N_of_ascii c + 32)
  else c.

Fixpoint lower (s : string) : string :=
  match s with
  | EmptyString => EmptyString
  | String c s' => String (lower_char c) (lower s')
  end.

Definition is_empty (s : string) : bool :=
  match s with EmptyString => true | _ => false end.

Fixpoint all_chars (p : ascii -> bool) (s : string) : bool :=
  match s with
  | EmptyString => true
  | String c s' => p c && all_chars p s'
  end.

Fixpoint filter_chars (p : ascii -> bool) (s : string) : string :=
  match s with
  | EmptyString => EmptyString
  | String c s' => if p c then String c (filter_chars p s') else filter_chars p s'
  end.

Fixpoint lstrip (s : string) : string :=
  match s with
  | EmptyString => EmptyString
  | String c s' => if isspace c then lstrip s' else s
  end.

Fixpoint rstrip (s : string) : string :=
  match s with
  | EmptyString => EmptyString
  | String c s' =>
      match rstrip s' with
      | EmptyString => if isspace c then EmptyString else String c EmptyString
      | r => String c r
      end
  end.

(** [s.strip()] *)
Definition strip (s : string) : string := rstrip (lstrip s).

(** [s.replace(" ", "")] *)
Definition remove_spaces (s : string) : string :=
  filter_chars (fun c => negb (Ascii.eqb c " ")) s.

(** [s.startswith(p)] *)
Fixpoint startswith (p s : string) : bool :=
  match p, s with
  | EmptyString, _ => true
  | String a p', String b s' => Ascii.eqb a b && startswith p' s'
  | String _ _, EmptyString => false
  end.

(** [s.startswith(("+", "-"))] *)
Definition startswith_sign (s : string) : bool :=
  startswith "+" s || startswith "-" s.

(** [s[1:]] *)
Definition drop1 (s : string) : string :=
  match s with EmptyString => EmptyString | String _ s' => s' end.

(** [sub in s] *)
Fixpoint contains (sub s : string) : bool :=
  startswith sub s
  || match s with
     | EmptyString => false
     | String _ s' => contains sub s'
     end.

(** [s.isdigit()]: at least one character, all of them digits. *)
Definition isdigit (s : string) : bool :=
  negb (is_empty s) && all_chars isdigit_char s.

(** [s[:2]] and [s[-2:]] *)
Definition first2 (s : string) : string := substring 0 2 s.
Definition last2 (s : string) : string := substring (String.length s - 2) 2 s.

(** [s.split(".")[0]] *)
Fixpoint before_dot (s : string) : string :=
  match s with
  | EmptyString => EmptyString
  | String c s' => if Ascii.eqb c "." then EmptyString else String c (before_dot s')
  end.

(** [int(s)] for a string of decimal digits, the only strings the program
    converts. *)
Definition digit_val (c : ascii) : Z := Z.of_N (N_of_ascii c) - 48.

Fixpoint int_acc (acc : Z) (s : string) : Z :=
  match s with
  | EmptyString => acc
  | String c s' => int_acc (10 * acc + digit_val c) s'
  end.

Definition int (s : string) : Z := int_acc 0 s.

End PyStr.

(** ** The two regular expressions of the text normaliser *)

Module Regex.
Import PyStr.

(** The longest run of [\d] at the head of [s], and what follows it. *)
Fixpoint span_digits (s : string) : string * string :=
  match s with
  | String c s' =>
      if is_decimal c
      then let '(ds, rest) := span_digits s' in (String c ds, rest)
      else (EmptyString, s)
  | EmptyString => (EmptyString, EmptyString)
  end.

(** [\d+(\.\d+)?] anchored at the head of [s]: the text matched and the
    rest.  Both quantifiers are greedy, and giving digits back never helps
    the group, so the first match is the one with the longest runs. *)
Definition match_unsigned (s : string) : option (string * string) :=
  let '(ds, rest) := span_digits s in
  if is_empty ds then None
  else match rest with
       | String "." r =>
           let '(fs, rest') := span_digits r in
           if is_empty fs then Some (ds, rest)
           else Some (ds ++ String "." fs, rest')
       | _ => Some (ds, rest)
       end.

(** [[+-]?\d+(\.\d+)?] anchored at the head of [s]: the sign is tried first
    and given back when no digit follows it. *)
Definition match_number (s : string) : option string :=
  match s with
  | String c s' =>
      if is_sign c
      then match match_unsigned s' with
           | Some (m, _) => Some (String c m)
           | None => fst <$> match_unsigned s
           end
      else fst <$> match_unsigned s
  | EmptyString => None
  end.

(** [re.search(r"[+-]?\d+(\.\d+)?", s)]: the match at the leftmost position
    that has one. *)
Fixpoint search_number (s : string) : option string :=
  match match_number s with
  | Some m => Some m
  | None =>
      match s with
      | EmptyString => None
      | String _ s' => search_number s'
      end
  end.

(** [re.match(r"^[+-]\d", s)] as a truth value. *)
Definition match_sign_digit (s : string) : bool :=
  match s with
  | String c (String d _) => is_sign c && is_decimal d
  | _ => false
  end.

(** The anchor [$] without [re.MULTILINE]: the end of the string, or the
    line feed that ends it. *)
Definition at_end (rest : string) : bool :=
  match rest with
  | EmptyString => true
  | String c EmptyString => Ascii.eqb c "010"
  | _ => false
  end.

(** [re.match(r"^\d+(\.\d+)?$", s)] as a truth value.  When the group
    matched and [$] fails, the engine retries without the group, where [$]
    meets the dot and fails again. *)
Definition fullmatch_unsigned (s : string) : bool :=
  match match_unsigned s with
  | Some (_, rest) => at_end rest
  | None => false
  end.

End Regex.

(** ** Python floats: IEEE 754 binary64 *)

Module Float64.

Definition prec : Z := 53.
Definition emax : Z := 1024.

Abbreviation float := spec_float.

(** [float(n)] for a Python integer [n]. *)
Definition of_int (n : Z) : float := binary_normalize prec emax n 0 false.

(** The binary64 number nearest to [n / 10^k] (ties to even), with the sign
    [neg]: the value of a decimal literal with digits [n], [k] of them after
    the point.  The quotient is rounded once, from the unrounded integers. *)
Definition decimal (neg : bool) (n : Z) (k : nat) : float :=
  match n with
  | Zpos p =>
      SFdiv prec emax (S754_finite neg p 0)
            (S754_finite false (Z.to_pos (10 ^ Z.of_nat k)) 0)
  | _ => S754_zero neg
  end.

Definition add : float -> float -> float := SFadd prec emax.
Definition sub : float -> float -> float := SFsub prec emax.
Definition abs : float -> float := SFabs.

(** [a < b], [a <= b] and [a > b] on floats; every comparison with a NaN is
    false. *)
Definition ltb (a b : float) : bool := SFltb a b.
Definition leb (a b : float) : bool := SFleb a b.
Definition gtb (a b : float) : bool := ltb b a.

(** [int(v)]: truncation toward zero (0 stands for the error Python raises
    on an infinity or a NaN, which the program never truncates). *)
Definition trunc (v : float) : Z :=
  match v with
  | S754_finite s m e =>
      let a := match e with
               | Zneg p => Z.shiftr (Zpos m) (Zpos p)
               | _ => Z.shiftl (Zpos m) e
               end in
      if s then - a else a
  | _ => 0
  end.

Definition zero : float := S754_zero false.

End Float64.

Import PyStr Regex Float64.

(** [float(s)] on the strings the program passes to it, which are made of a
    sign, decimal digits and dots: surrounding white space is dropped, then
    an optional sign, digits, and optionally a dot and digits, with a digit
    somewhere.  [None] is [ValueError].  (Exponents, underscores and the
    words [inf] and [nan], which [float] also reads, cannot reach it.) *)
Definition py_float (s : string) : option float :=
  let t := strip s in
  let neg := startswith "-" t in
  let body := if startswith_sign t then drop1 t else t in
  let '(ip, rest) := span_digits body in
  match rest with
  | EmptyString =>
      if is_empty ip then None else Some (decimal neg (int ip) 0)
  | String "." r =>
      let '(fp, rest') := span_digits r in
      if is_empty rest' && negb (is_empty ip && is_empty fp)
      then Some (decimal neg (int (ip ++ fp)) (String.length fp))
      else None
  | _ => None
  end.

(** ** Constants of [ocr.py] *)

Definition SCORE_THRESHOLD : float := decimal false 70 2.
Definition ROTATIONS : list Z := [0; 90; -90; 180]%Z.
Definition ANGLE_LIMIT_ABS : float := of_int 100.
Definition TEMP_MAX : float := of_int 80.

(** ** Text normaliser *)

Definition extract_num_str (txt : string) : option string :=
  if is_empty txt then None
  else search_number (remove_spaces txt).

Definition sign_first (txt : string) : bool :=
  match_sign_digit (remove_spaces txt).

(** The second literal of the source is the two characters U+00C2 U+00B0. *)
Definition degree_literal : string :=
  String (ascii_of_N 194) (String (ascii_of_N 176) EmptyString).

Definition has_temp_hint (txt : string) : bool :=
  let t := lower txt in
  contains "c" t || contains degree_literal t.

Definition has_depth_hint (txt : string) : bool :=
  let t := lower txt in
  contains "m" t.

(** ** Field repair rules *)

(** A falsy argument of type [Optional[str]]: [None] or the empty string. *)
Definition falsy (num_str : option string) : bool :=
  match num_str with
  | None => true
  | Some s => is_empty s
  end.

Definition normalize_angle (num_str : option string) : option string :=
  match num_str with
  | None => None
  | Some n =>
      if is_empty n then None
      else
        let s := remove_spaces n in
        let s := if startswith_sign s then s else "+" ++ s in
        match py_float s with
        | None => None
        | Some v => if gtb (abs v) ANGLE_LIMIT_ABS then None else Some s
        end
  end.

Definition depth_valid (num_str : option string) : bool :=
  match num_str with
  | None => false
  | Some n =>
      if is_empty n then false
      else
        let s := strip n in
        let s := if startswith_sign s then drop1 s else s in
        let s := remove_spaces s in
        if negb (fullmatch_unsigned s) then false
        else
          let left := before_dot s in
          (String.length left <=? 3)%nat
  end.

(** [abs(v - int(v)) > 1e-9] *)
Definition has_fraction (v : float) : bool :=
  gtb (abs (sub v (of_int (trunc v)))) (decimal false 1 9).

(** [min(l)] for a non-empty list [x :: l]: the first least element. *)
Fixpoint py_min_from (best : float) (l : list float) : float :=
  match l with
  | [] => best
  | x :: l' => py_min_from (if ltb x best then x else best) l'
  end.

(** The candidates of a digit string of length three or more. *)
Definition temp_candidates (s : string) : list float :=
  (if (3 <=? String.length s)%nat
   then [of_int (int (first2 s)); of_int (int (last2 s))]
   else [])
  ++ (if (String.length s =? 3)%nat
      then match py_float (first2 s ++ "." ++ substring 2 1 s) with
           | Some v => [v]
           | None => []
           end
      else []).

Definition repair_temp (num_str : option string) : option float :=
  match num_str with
  | None => None
  | Some n =>
      if is_empty n then None
      else
        let s := strip n in
        let s := if startswith_sign s then drop1 s else s in
        let s := remove_spaces s in
        let s := filter_chars (fun c => is_decimal c || Ascii.eqb c ".") s in
        if is_empty s then None
        else if contains "." s then
          match py_float s with
          | None => None
          | Some v => if leb v TEMP_MAX then Some v else None
          end
        else if negb (isdigit s) then None
        else if (String.length s <=? 2)%nat then
          let v := of_int (int s) in
          if leb v TEMP_MAX then Some v else None
        else
          let candidates := temp_candidates s in
          let valid := List.filter (fun c => leb c TEMP_MAX) candidates in
          match valid with
          | [] => None
          | v0 :: rest =>
              let decimals := List.filter has_fraction valid in
              match decimals with
              | d :: _ => Some d
              | [] => Some (py_min_from v0 rest)
              end
          end
  end.

(** ** Candidate scorer *)

Definition score_key (txt : string) (score : float) : float :=
  let t := remove_spaces txt in
  let bonus := zero in
  let bonus := if extract_num_str t is Some _ then add bonus (decimal false 5 2) else bonus in
  let bonus := if contains "." t then add bonus (decimal false 5 2) else bonus in
  let bonus := if sign_first t then add bonus (decimal false 8 2) else bonus in
  add score bonus.

(** [max(l, key=key)] for a non-empty list [x :: l]: the first element whose
    key no later one exceeds; a later element replaces the best one only when
    its key is strictly greater. *)
Fixpoint py_max_from {A : Type} (key : A -> float) (best : A) (l : list A) : A :=
  match l with
  | [] => best
  | x :: l' => py_max_from key (if gtb (key x) (key best) then x else best) l'
  end.

(** ** Descriptions used by the properties *)

(** A string that does not start with a decimal digit. *)
Definition no_digit_ahead (rest : string) : Prop :=
  match rest with
  | String c _ => is_decimal c = false
  | EmptyString => True
  end.

(** The strings that [\d+(\.\d+)?] matches in full, and those of
    [[+-]?\d+(\.\d+)?]. *)
Definition unsigned_form (m : string) : Prop :=
  exists ds fs,
    ds <> "" /\ all_chars is_decimal ds = true /\ all_chars is_decimal fs = true
    /\ (m = ds /\ fs = "" \/ fs <> "" /\ m = ds ++ "." ++ fs).

Definition number_form (n : string) : Prop :=
  unsigned_form n
  \/ exists c m, is_sign c = true /\ unsigned_form m /\ n = String c m.

(** ** The temperature candidates in the words of the specification

    Section 4.3, step 4: the first two digits as an integer, the last two
    digits as an integer, and, only when the length is exactly three, the
    first two digits plus the third digit as a decimal: the number of the
    three digits divided by ten. *)
Definition spec_candidates (s : string) : list float :=
  [of_int (int (first2 s)); of_int (int (last2 s))]
  ++ (if (String.length s =? 3)%nat then [decimal false (int s) 1] else []).

(** The shape shared by the loops of [choose_rotation] and
    [read_field_best] and by [max] with a key: the candidate [f x] replaces
    the best value so far only when its score is strictly greater. *)
Definition keep_best {A B : Type} (score : A -> float) (f : B -> A)
    (l : list B) (init : A) : A :=
  fold_left (fun best x => if gtb (score (f x)) (score best) then f x else best)
            l init.

(** On the empty list Python raises [ValueError]; the program only takes the
    greatest of lists that cannot be empty. *)
Definition py_max {A : Type} `{!Inhabited A} (key : A -> float) (l : list A) : A :=
  match l with
  | [] => inhabitant
  | x :: l' => py_max_from key x l'
  end.

(** ** The result records: JSON values, dictionaries in insertion order *)

#[local] Set Warnings "-register-all".

Inductive json : Type :=
| JStr (s : string)
| JInt (n : Z)
| JFloat (x : float)
| JList (l : list json)
| JDict (kv : list (string * json)).

Definition dict_keys (j : json) : list string :=
  match j with
  | JDict kv => fst <$> kv
  | _ => []
  end.

(** [j[k]] on a dictionary. *)
Definition dict_get (j : json) (k : string) : option json :=
  match j with
  | JDict kv => snd <$> List.find (fun p => String.eqb (fst p) k) kv
  | _ => None
  end.

(** [j[k1][k2]] *)
Definition dict_get2 (j : json) (k1 k2 : string) : option json :=
  dict_get j k1 ≫= fun j' => dict_get j' k2.

(** A recognition: the text read and its confidence. *)
Record sample : Type := Sample { s_txt : string; s_sc : float }.

(** Defaults for the lookups [probe[r]] and [hint_scores[r]], which the
    program makes at keys it has stored. *)
#[global] Instance float_inhabited : Inhabited float := populate zero.
#[global] Instance sample_inhabited : Inhabited sample := populate (Sample "" zero).

(** The best reading of a field: the source variant, its text, its
    confidence. *)
Record field_best : Type := FieldBest { src : string; txt : string; sc : float }.

(** The nine image keys a group must hold. *)
Definition required : list string :=
  [ "angle_sr"; "angle_v7"; "angle_v8";
    "temp_sr"; "temp_v7"; "temp_v8";
    "depth_sr"; "depth_v7"; "depth_v8" ].

(** The values that stand for a rejected field in a record. *)
Definition or_unreadable {A : Type} (inj : A -> json) (v : option A) : json :=
  match v with
  | Some a => inj a
  | None => JStr "UNREADABLE"
  end.

(** Stable insertion sort, for [sorted(items, key=...)]. *)
Fixpoint insert_by {A : Type} (key : A -> string) (x : A) (l : list A) : list A :=
  match l with
  | [] => [x]
  | y :: l' =>
      if String.leb (key x) (key y) then x :: l
      else y :: insert_by key x l'
  end.

Definition sorted_by {A : Type} (key : A -> string) (l : list A) : list A :=
  fold_right (insert_by key) [] l.

Section Engine.

(** Decoded gray images, the OpenCV operations on them, and the recogniser.
    [predict g] is what [ocr_once] reads from the model's answer on [g]:
    [None] when reading it raises, otherwise the recognised text ([None] when
    the model gives no text) and the score as a float. *)
Context {image : Type} `{!Inhabited image}.
Variable rotate_gray : image -> Z -> image.
Variable enhance_for_ocr : image -> image.
Variable predict : image -> option (option string * float).
Variable imread_any_gray : string -> option image.

Definition ocr_once (gray : image) : string * float :=
  match predict gray with
  | Some (t, score) => (strip (default "" t), score)
  | None => ("", zero)
  end.

(** A dictionary of the three source images of one field, in insertion
    order; [getitem] is [imgs[key]] on a key that is present. *)
Definition getitem (imgs : list (string * image)) (key : string) : image :=
  default inhabitant (snd <$> List.find (fun p => String.eqb (fst p) key) imgs).

(** The angle probe of one rotation. *)
Definition probe_at (angle_imgs : list (string * image)) (rot : Z) : sample :=
  fold_left
    (fun best '(_, img) =>
       let g := rotate_gray img rot in
       let g := enhance_for_ocr g in
       let '(t, c) := ocr_once g in
       if gtb (score_key t c) (score_key (s_txt best) (s_sc best))
       then Sample t c else best)
    angle_imgs (Sample "" zero).

(** The unit-hint sum of one rotation. *)
Definition hint_sum (hint : string -> bool) (rot : Z)
    (imgs : list (string * image)) (sc_sum : float) : float :=
  fold_left
    (fun acc '(_, img) =>
       let g := rotate_gray img rot in
       let g := enhance_for_ocr g in
       let '(t, c) := ocr_once g in
       if hint t then add acc (add c (decimal false 15 2)) else acc)
    imgs sc_sum.

Definition choose_rotation
    (angle_imgs temp_imgs depth_imgs : list (string * image)) : Z * string :=
  let probe : gmap Z sample :=
    fold_left (fun probe rot => <[rot := probe_at angle_imgs rot]> probe)
              ROTATIONS ∅ in
  let sign_rots :=
    List.filter (fun r => sign_first (s_txt (probe !!! r))) ROTATIONS in
  match sign_rots with
  | r0 :: rest =>
      (py_max_from (fun r => s_sc (probe !!! r)) r0 rest, "angle_sign_first")
  | [] =>
      let hint_scores : gmap Z float :=
        fold_left
          (fun hs rot =>
             let sc_sum := zero in
             let sc_sum := hint_sum has_temp_hint rot temp_imgs sc_sum in
             let sc_sum := hint_sum has_depth_hint rot depth_imgs sc_sum in
             <[rot := sc_sum]> hs)
          ROTATIONS ∅ in
      (* the keys of [hint_scores], in insertion order, are [ROTATIONS] *)
      let best_rot := py_max (fun r => hint_scores !!! r) ROTATIONS in
      if gtb (hint_scores !!! best_rot) zero then (best_rot, "unit_hint")
      else (py_max (fun r => s_sc (probe !!! r)) ROTATIONS,
            "fallback_best_angle_score")
  end.

Definition read_field_best (imgs : list (string * image)) (rot : Z) : field_best :=
  fold_left
    (fun best s =>
       let img := getitem imgs s in
       let g := rotate_gray img rot in
       let g := enhance_for_ocr g in
       let '(t, c) := ocr_once g in
       if gtb (score_key t c) (score_key (txt best) (sc best))
       then FieldBest s t c else best)
    ["sr"; "v7"; "v8"] (FieldBest "none" "" zero).

(** What the recogniser makes of the source [s] of a field at the rotation
    [rot]: the reading one turn of the loop of [read_field_best] considers. *)
Definition reading_of (imgs : list (string * image)) (rot : Z) (s : string)
    : field_best :=
  let '(t, c) := ocr_once (enhance_for_ocr (rotate_gray (getitem imgs s) rot)) in
  FieldBest s t c.

(** The loop of [main] that decodes the required images of a group [d];
    [None] as soon as one cannot be decoded. *)
Fixpoint read_images (d : gmap string string) (ks : list string)
    (imgs : gmap string image) : option (gmap string image) :=
  match ks with
  | [] => Some imgs
  | k :: ks' =>
      match imread_any_gray (d !!! k) with
      | None => None
      | Some g => read_images d ks' (<[k := g]> imgs)
      end
  end.

Definition missing_keys (d : gmap string string) : list string :=
  List.filter (fun k => bool_decide (d !! k = None)) required.

(** The reason codes of a fully evaluated group, in the order [main] appends
    them. *)
Definition mistakes_of (angle_final : option string) (temp_final : option float)
    (depth_final : option string) (angle_best temp_best depth_best : field_best)
    : list string :=
  (if angle_final is None then ["angle_invalid"] else [])
  ++ (if temp_final is None then ["temp_invalid"] else [])
  ++ (if depth_final is None then ["depth_invalid"] else [])
  ++ (if ltb (sc angle_best) SCORE_THRESHOLD then ["angle_low_score"] else [])
  ++ (if ltb (sc temp_best) SCORE_THRESHOLD then ["temp_low_score"] else [])
  ++ (if ltb (sc depth_best) SCORE_THRESHOLD then ["depth_low_score"] else []).

(** What [main] computes for a group whose nine images were decoded. *)
Record evaluation : Type := Evaluation {
  ev_rot : Z;
  ev_rot_reason : string;
  ev_angle_best : field_best;
  ev_temp_best : field_best;
  ev_depth_best : field_best;
  ev_angle_final : option string;
  ev_temp_final : option float;
  ev_depth_final : option string;
  ev_mistakes : list string;
  ev_status : string
}.

Definition evaluate (imgs : gmap string image) : evaluation :=
  let angle_imgs := [("sr", imgs !!! "angle_sr"); ("v7", imgs !!! "angle_v7");
                     ("v8", imgs !!! "angle_v8")] in
  let temp_imgs := [("sr", imgs !!! "temp_sr"); ("v7", imgs !!! "temp_v7");
                    ("v8", imgs !!! "temp_v8")] in
  let depth_imgs := [("sr", imgs !!! "depth_sr"); ("v7", imgs !!! "depth_v7");
                     ("v8", imgs !!! "depth_v8")] in
  let '(rot, rot_reason) := choose_rotation angle_imgs temp_imgs depth_imgs in
  let angle_best := read_field_best angle_imgs rot in
  let temp_best := read_field_best temp_imgs rot in
  let depth_best := read_field_best depth_imgs rot in
  let angle_num := extract_num_str (txt angle_best) in
  let temp_num := extract_num_str (txt temp_best) in
  let depth_num := extract_num_str (txt depth_best) in
  let angle_final := normalize_angle angle_num in
  let temp_final := repair_temp temp_num in
  let depth_final := if depth_valid depth_num then depth_num else None in
  let mistakes :=
    mistakes_of angle_final temp_final depth_final
                angle_best temp_best depth_best in
  let status := if mistakes is [] then "OK" else "MISTAKE" in
  Evaluation rot rot_reason angle_best temp_best depth_best
             angle_final temp_final depth_final mistakes status.

(** The record [main] writes for a fully evaluated group. *)
Definition record_of (gid : string) (e : evaluation) : json :=
  JDict
    [ ("id", JStr gid);
      ("status", JStr (ev_status e));
      ("rotation", JInt (ev_rot e));
      ("rotation_reason", JStr (ev_rot_reason e));
      ("values",
        JDict [ ("temp", or_unreadable JFloat (ev_temp_final e));
                ("depth", or_unreadable JStr (ev_depth_final e));
                ("angle", or_unreadable JStr (ev_angle_final e)) ]);
      ("sources",
        JDict [ ("temp", JStr (src (ev_temp_best e)));
                ("depth", JStr (src (ev_depth_best e)));
                ("angle", JStr (src (ev_angle_best e))) ]);
      ("scores",
        JDict [ ("temp", JFloat (sc (ev_temp_best e)));
                ("depth", JFloat (sc (ev_depth_best e)));
                ("angle", JFloat (sc (ev_angle_best e))) ]);
      ("raw_text",
        JDict [ ("temp", JStr (txt (ev_temp_best e)));
                ("depth", JStr (txt (ev_depth_best e)));
                ("angle", JStr (txt (ev_angle_best e))) ]);
      ("mistakes", JList (JStr <$> ev_mistakes e)) ].

(** The body of the loop of [main]: the record written for the group [gid]
    with the image files [d]. *)
Definition process_group (gid : string) (d : gmap string string) : json :=
  let missing := missing_keys d in
  match missing with
  | _ :: _ =>
      JDict [ ("id", JStr gid); ("status", JStr "MISTAKE");
              ("reason", JStr "missing_files");
              ("missing", JList (JStr <$> missing)) ]
  | [] =>
      match read_images d required ∅ with
      | None =>
          JDict [ ("id", JStr gid); ("status", JStr "MISTAKE");
                  ("reason", JStr "cant_read_image") ]
      | Some imgs => record_of gid (evaluate imgs)
      end
  end.

(** A fully evaluated group: its nine required images are present and
    [imgs] holds their decoded content. *)
Definition fully_evaluated (d : gmap string string) (imgs : gmap string image)
    : Prop :=
  missing_keys d = [] /\ read_images d required ∅ = Some imgs.

(** The lines [main] writes to the result file, for the groups found by the
    scan of the folder. *)
Definition main_records (groups : list (string * gmap string string)) : list json :=
  (fun '(gid, d) => process_group gid d)
    <$> sorted_by (fun x => lower (fst x)) groups.

End Engine.

(** ** Views of an evaluation, field by field *)

(** The dictionary [{"sr": ..., "v7": ..., "v8": ...}] that [main] builds for
    the field [fld] from the decoded images of a group. *)
Definition field_images {image : Type} `{!Inhabited image}
    (imgs : gmap string image) (fld : string) : list (string * image) :=
  [("sr", imgs !!! (fld ++ "_sr")); ("v7", imgs !!! (fld ++ "_v7"));
   ("v8", imgs !!! (fld ++ "_v8"))].

(** The score of section 4.2 of a reading. *)
Definition field_score (b : field_best) : float := score_key (txt b) (sc b).

(** The reading [read_field_best] starts from. *)
Definition no_reading : field_best := FieldBest "none" "" zero.

Definition source_variants : list string := ["sr"; "v7"; "v8"].

Definition rotation_tags : list string :=
  ["angle_sign_first"; "unit_hint"; "fallback_best_angle_score"].

(** The reason codes of a fully evaluated group, in the order of [main]. *)
Definition reason_codes : list string :=
  ["angle_invalid"; "temp_invalid"; "depth_invalid";
   "angle_low_score"; "temp_low_score"; "depth_low_score"].

(** ** The record schema of section 6 of the specification *)

Definition record_fields : list string :=
  ["id"; "status"; "rotation"; "rotation_reason"; "values"; "sources";
   "scores"; "raw_text"; "mistakes"].

Definition is_str (j : json) : Prop :=
  match j with JStr _ => True | _ => False end.

Definition is_float (j : json) : Prop :=
  match j with JFloat _ => True | _ => False end.

(** A validated value of the kind [ok], or the sentinel. *)
Definition value_or_sentinel (ok : json -> Prop) (j : json) : Prop :=
  ok j \/ j = JStr "UNREADABLE".

(** A dictionary with exactly the keys [temp], [depth], [angle], in this
    order, whose values satisfy [pt], [pd] and [pa]. *)
Definition per_field (pt pd pa : json -> Prop) (j : json) : Prop :=
  dict_keys j = ["temp"; "depth"; "angle"]
  /\ (exists v, dict_get j "temp" = Some v /\ pt v)
  /\ (exists v, dict_get j "depth" = Some v /\ pd v)
  /\ (exists v, dict_get j "angle" = Some v /\ pa v).

Definition full_schema (gid : string) (j : json) : Prop :=
  dict_keys j = record_fields
  /\ dict_get j "id" = Some (JStr gid)
  /\ (exists st, dict_get j "status" = Some (JStr st)
                 /\ (st = "OK" \/ st = "MISTAKE"))
  /\ (exists rot, dict_get j "rotation" = Some (JInt rot) /\ In rot ROTATIONS)
  /\ (exists tag, dict_get j "rotation_reason" = Some (JStr tag)
                  /\ In tag rotation_tags)
  /\ (exists v, dict_get j "values" = Some v
                /\ per_field (value_or_sentinel is_float)
                             (value_or_sentinel is_str)
                             (value_or_sentinel is_str) v)
  /\ (exists v, dict_get j "sources" = Some v /\ per_field is_str is_str is_str v)
  /\ (exists v, dict_get j "scores" = Some v
                /\ per_field is_float is_float is_float v)
  /\ (exists v, dict_get j "raw_text" = Some v
                /\ per_field is_str is_str is_str v)
  /\ (exists ms, dict_get j "mistakes" = Some (JList (JStr <$> ms))
                 /\ forall m, In m ms -> In m reason_codes).

(** ** Scripted recognisers, for concrete runs of the engine *)

Module Script.

(** A scripted image is the answer the recogniser gives at each orientation
    of it; rotating selects the answer, enhancing changes nothing. *)
Definition image : Type := Z -> option (option string * float).

Definition rotate_gray (g : image) (deg : Z) : image := fun _ => g deg.
Definition enhance_for_ocr (g : image) : image := g.
Definition predict (g : image) : option (option string * float) := g 0%Z.

(** An image that reads the same at every orientation. *)
Definition steady (text : string) (conf : float) : image :=
  fun _ => Some (Some text, conf).

(** An image on which the recogniser finds nothing. *)
Definition blank : image := fun _ => None.

(** An image that reads [text] with confidence [conf] when turned by 180
    degrees, and [other] with confidence [conf'] otherwise. *)
Definition upside_down (text : string) (conf : float)
    (other : string) (conf' : float) : image :=
  fun deg => if (deg =? 180)%Z then Some (Some text, conf)
             else Some (Some other, conf').

(** A folder: the decoded content of each file; a file that is absent from
    it cannot be decoded. *)
Definition disk (files : list (string * image)) (path : string) : option image :=
  snd <$> List.find (fun p => String.eqb (fst p) path) files.

(** A group with its nine files, each named after its key. *)
Definition full_group : gmap string string :=
  list_to_map ((fun k => (k, k ++ ".png")) <$> required).

(** The same group without the file of [depth_v8]. *)
Definition group_without_depth_v8 : gmap string string :=
  delete "depth_v8" full_group.

(** Three sources of each field, all showing [a], [t] and [d]. *)
Definition files_of (a t d : image) : list (string * image) :=
  [ ("angle_sr.png", a); ("angle_v7.png", a); ("angle_v8.png", a);
    ("temp_sr.png", t); ("temp_v7.png", t); ("temp_v8.png", t);
    ("depth_sr.png", d); ("depth_v7.png", d); ("depth_v8.png", d) ].

Definition conf_90 : float := decimal false 90 2.
Definition conf_30 : float := decimal false 30 2.
Definition conf_99 : float := decimal false 99 2.

(** A well-read gauge. *)
Definition clear_files : list (string * image) :=
  files_of (steady "+12.5" conf_90) (steady "37.5 C" conf_90)
           (steady "-5 m" conf_90).

(** A gauge on which nothing is recognised. *)
Definition blank_files : list (string * image) :=
  files_of blank blank blank.

(** A gauge photographed upside down: the angle shows its sign only when
    turned by 180 degrees, with a low confidence; the other orientations
    read a confident but unsigned text. *)
Definition turned_files : list (string * image) :=
  files_of (upside_down "+15" conf_30 "SI" conf_99)
           (steady "21" conf_90) (steady "7" conf_90).

Definition run (files : list (string * image)) (gid : string)
    (d : gmap string string) : json :=
  process_group rotate_gray enhance_for_ocr predict (disk files) gid d.

(** The decoded images of a group in a folder (none when a file cannot be
    decoded). *)
Definition decoded (files : list (string * image)) (d : gmap string string)
    : gmap string image :=
  default ∅ (read_images (disk files) d required ∅).

Definition triple (a : image) : list (string * image) :=
  [("sr", a); ("v7", a); ("v8", a)].

End Script.

(** ** The rest of [ocr.py]: the folder scan, the unused single-image reader
    and the counters of [main] *)

Definition EXTS : list string := [".jpg"; ".jpeg"; ".png"; ".bmp"; ".webp"].

(** [s.endswith(suf)] *)
Definition endswith (suf s : string) : bool :=
  (String.length suf <=? String.length s)%nat
  && String.eqb (substring (String.length s - String.length suf)
                           (String.length suf) s) suf.

(** [s.endswith(EXTS)], with a tuple of suffixes. *)
Definition endswith_any (sufs : list string) (s : string) : bool :=
  existsb (fun suf => endswith suf s) sufs.

Definition detect_field_and_type (fn : string) : option string * option string :=
  let s := lower fn in
  let field :=
    if startswith "angle" s then Some "angle"
    else if startswith "temp" s then Some "temp"
    else if startswith "depth" s then Some "depth"
    else None in
  match field with
  | None => (None, None)
  | Some f =>
      if contains "_sr" s then (Some f, Some "sr")
      else if contains "_v7" s then (Some f, Some "v7")
      else if contains "_v8" s then (Some f, Some "v8")
      else (None, None)
  end.

(** [groups[gid][key] = path] on a [defaultdict(dict)]: the dictionary of
    [gid] is updated where it stands, or created at the end. *)
Fixpoint set_item (groups : list (string * gmap string string))
    (gid key path : string) : list (string * gmap string string) :=
  match groups with
  | [] => [(gid, {[key := path]})]
  | (g, d) :: rest =>
      if String.eqb g gid then (g, <[key := path]> d) :: rest
      else (g, d) :: set_item rest gid key path
  end.

(** The keys of all the groups of a scan. *)
Definition group_ids (groups : list (string * gmap string string)) : list string :=
  fst <$> groups.

Section Scan.

(** [os.path.basename] and [os.path.join], which depend on the platform. *)
Variable basename : string -> string.
Variable path_join : string -> string -> string.

(** The inner loop of [scan_groups], over the files of one directory. *)
Definition scan_files (root : string) (files : list string)
    (groups : list (string * gmap string string))
    : list (string * gmap string string) :=
  let gid := basename root in
  fold_left
    (fun groups fn =>
       if negb (endswith_any EXTS (lower fn)) then groups
       else
         match detect_field_and_type fn with
         | (Some field, Some typ) =>
             if is_empty field then groups
             else set_item groups gid (field ++ "_" ++ typ) (path_join root fn)
         | _ => groups
         end)
    files groups.

(** [scan_groups], over what [os.walk] yields: each directory with its
    files. *)
Definition scan_groups (walk : list (string * list string))
    : list (string * gmap string string) :=
  fold_left (fun groups '(root, files) => scan_files root files groups) walk [].

End Scan.

(** The best reading of one image over the rotations ([best_ocr_text]). *)
Record rot_best : Type := RotBest { rb_txt : string; rb_sc : float; rb_rot : Z }.

Section EngineRest.

Context {image : Type} `{!Inhabited image}.
Variable rotate_gray : image -> Z -> image.
Variable enhance_for_ocr : image -> image.
Variable predict : image -> option (option string * float).
Variable imread_any_gray : string -> option image.

(** What the recogniser reads on an image turned by [rot]. *)
Definition rot_reading (gray_img : image) (rot : Z) : rot_best :=
  let '(t, c) := ocr_once predict (enhance_for_ocr (rotate_gray gray_img rot)) in
  RotBest t c rot.

Definition best_ocr_text (gray_img : image) : rot_best :=
  fold_left
    (fun best rot =>
       let g := rotate_gray gray_img rot in
       let g := enhance_for_ocr g in
       let '(t, c) := ocr_once predict g in
       if gtb (score_key t c) (score_key (rb_txt best) (rb_sc best))
       then RotBest t c rot else best)
    ROTATIONS (RotBest "" zero 0).

(** The branch of the loop of [main] that adds one to [ok]; the other
    branches add one to [bad]. *)
Definition group_is_ok (d : gmap string string) : bool :=
  match missing_keys d with
  | _ :: _ => false
  | [] =>
      match read_images imread_any_gray d required ∅ with
      | None => false
      | Some imgs =>
          String.eqb
            (ev_status (evaluate rotate_gray enhance_for_ocr predict imgs)) "OK"
      end
  end.

(** The counters [ok] and [bad] at the end of [main]. *)
Definition main_counts (groups : list (string * gmap string string)) : nat * nat :=
  fold_left
    (fun '(ok, bad) '(gid, d) =>
       if group_is_ok d then (S ok, bad) else (ok, S bad))
    (sorted_by (fun x => lower (fst x)) groups) (0%nat, 0%nat).

End EngineRest.

(** The status of a record. *)
Definition status_is_ok (r : json) : bool :=
  match dict_get r "status" with
  | Some (JStr st) => String.eqb st "OK"
  | _ => false
  end.

(** The identifier of a record. *)
Definition record_id (r : json) : string :=
  match dict_get r "id" with
  | Some (JStr gid) => gid
  | _ => ""
  end.

(** A text without a decimal digit. *)
Definition no_digit (s : string) : bool :=
  all_chars (fun c => negb (is_decimal c)) s.

(** A binary64 number that is not negative: a finite number, a zero or an
    infinity with a clear sign bit. *)
Definition sign_clear (v : float) : Prop :=
  match v with
  | S754_zero s | S754_infinity s | S754_finite s _ _ => s = false
  | S754_nan => False
  end.

(** What the scan keeps true of the groups it builds: one entry for each
    identifier, no empty group, required keys only. *)
Definition scan_invariant (groups : list (string * gmap string string)) : Prop :=
  NoDup (group_ids groups)
  /\ forall gid d, In (gid, d) groups ->
       d <> ∅ /\ forall k, is_Some (d !! k) -> In k required.

(** Where a path stored under the key [k] of the group [gid] comes from: a
    file of a directory named [gid], with an image extension, whose name
    gives the field and the source of [k]. *)
Definition stored_from (basename : string -> string)
    (path_join : string -> string -> string)
    (walk : list (string * list string)) (gid k p : string) : Prop :=
  exists root files fn field typ,
    In (root, files) walk /\ In fn files
    /\ gid = basename root /\ p = path_join root fn
    /\ endswith_any EXTS (lower fn) = true
    /\ detect_field_and_type fn = (Some field, Some typ)
    /\ k = field ++ "_" ++ typ.

(* ===================================================================== *)
(** * Part II: properties                                                  *)
(* ===================================================================== *)

(** ** The order of binary64 numbers *)

Section FloatOrder.

#[local] Ltac order_cases :=
  repeat match goal with
         | |- context [Z.compare ?a ?b] => destruct (Z.compare_spec a b)
         | |- context [Pos.compare_cont Eq ?a ?b] =>
             change (Pos.compare_cont Eq a b) with (Pos.compare a b);
             destruct (Pos.compare_spec a b)
         | H : context [Z.compare ?a ?b] |- _ => destruct (Z.compare_spec a b)
         | H : context [Pos.compare_cont Eq ?a ?b] |- _ =>
             change (Pos.compare_cont Eq a b) with (Pos.compare a b) in H;
             destruct (Pos.compare_spec a b)
         end;
  simpl in *; try congruence; try lia.

(** Swapping the operands of a comparison reverses its outcome. *)
Lemma SFcompare_swap (x y : float) (c : comparison) :
  SFcompare x y = Some c -> SFcompare y x = Some (CompOpp c).
Proof.
  destruct x as [[]|[]| |[] mx ex], y as [[]|[]| |[] my ey]; simpl;
    intros H; inversion H; subst; clear H; try reflexivity;
    f_equal; order_cases.
Qed.

Lemma ltb_trans (a b c : float) :
  ltb a b = true -> ltb b c = true -> ltb a c = true.
Proof.
  unfold ltb, SFltb.
  destruct a as [[]|[]| |[] ma ea], b as [[]|[]| |[] mb eb],
           c as [[]|[]| |[] mc ec]; simpl; try congruence;
    order_cases.
Qed.

Lemma ltb_leb_trans (a b c : float) :
  ltb a b = true -> leb b c = true -> ltb a c = true.
Proof.
  unfold ltb, leb, SFltb, SFleb.
  destruct a as [[]|[]| |[] ma ea], b as [[]|[]| |[] mb eb],
           c as [[]|[]| |[] mc ec]; simpl; try congruence;
    order_cases.
Qed.

Lemma ltb_irrefl (a : float) : ltb a a = false.
Proof.
  unfold ltb, SFltb.
  destruct a as [[]|[]| |[] ma ea]; simpl; try reflexivity;
    rewrite Z.compare_refl;
    change (Pos.compare_cont Eq ma ma) with (Pos.compare ma ma);
    rewrite Pos.compare_refl; reflexivity.
Qed.

Lemma ltb_not_leb (a b : float) : ltb a b = true -> leb b a = false.
Proof.
  unfold ltb, leb, SFltb, SFleb.
  destruct (SFcompare a b) as [c|] eqn:E; [|congruence].
  rewrite (SFcompare_swap _ _ _ E). destruct c; simpl; congruence.
Qed.

(** Two numbers that compare, when the first is not below the second. *)
Lemma not_ltb_leb (a b : float) :
  a <> S754_nan -> b <> S754_nan -> ltb a b = false -> leb b a = true.
Proof.
  intros Ha Hb. unfold ltb, leb, SFltb, SFleb.
  destruct (SFcompare a b) as [c|] eqn:E.
  - rewrite (SFcompare_swap _ _ _ E). destruct c; simpl; congruence.
  - destruct a as [[]|[]| |[] ma ea], b as [[]|[]| |[] mb eb];
      simpl in E; congruence.
Qed.

End FloatOrder.

(** ** Keeping the better of two candidates along a list

    The loops of [choose_rotation] and [read_field_best], and Python's [max]
    with a key, have one shape: a candidate replaces the best one so far
    only when its score is strictly greater. *)

Section KeepBest.

Context {A B : Type}.
Variable score : A -> float.
Variable f : B -> A.

Lemma keep_best_cons (a : B) (l : list B) (init : A) :
  keep_best score f (a :: l) init
  = keep_best score f l (if gtb (score (f a)) (score init) then f a else init).
Proof. reflexivity. Qed.

(** Either nothing beat the initial value, or the outcome comes from the
    first position of the list that no position matches or beats: it beats
    the initial value, no earlier candidate reaches its score, no later one
    exceeds it. *)
Lemma keep_best_spec (l : list B) (init : A) :
  (keep_best score f l init = init
   /\ forall y, In y l -> gtb (score (f y)) (score init) = false)
  \/ (exists l1 x l2,
        l = (l1 ++ x :: l2)%list
        /\ keep_best score f l init = f x
        /\ ltb (score init) (score (f x)) = true
        /\ (forall y, In y l1 -> leb (score (f x)) (score (f y)) = false)
        /\ (forall y, In y l2 -> gtb (score (f y)) (score (f x)) = false)).
Proof.
  revert init. induction l as [|a l IH]; intros init.
  - left. split; [reflexivity | intros y []].
  - rewrite keep_best_cons.
    destruct (gtb (score (f a)) (score init)) eqn:Ea.
    + right. destruct (IH (f a)) as [[Hr Hl] | (l1 & x & l2 & -> & Hr & Hlt & H1 & H2)].
      * exists [], a, l. repeat split; auto. intros y [].
      * exists (a :: l1), x, l2. repeat split; auto.
        -- eapply ltb_trans; eauto.
        -- intros y [<- | Hy]; [now apply ltb_not_leb | auto].
    + destruct (IH init) as [[Hr Hl] | (l1 & x & l2 & -> & Hr & Hlt & H1 & H2)].
      * left. split; [assumption|]. intros y [<- | Hy]; auto.
      * right. exists (a :: l1), x, l2. repeat split; auto.
        intros y [<- | Hy]; [|auto].
        destruct (leb (score (f x)) (score (f a))) eqn:E; [|reflexivity].
        unfold gtb in Ea. rewrite (ltb_leb_trans _ _ _ Hlt E) in Ea. discriminate.
Qed.

(** No candidate of the list exceeds the outcome, nor does the initial
    value. *)
Lemma keep_best_upper (l : list B) (init : A) :
  ltb (score (keep_best score f l init)) (score init) = false
  /\ forall y, In y l -> gtb (score (f y)) (score (keep_best score f l init)) = false.
Proof.
  destruct (keep_best_spec l init)
    as [[Hr Hl] | (l1 & x & l2 & -> & Hr & Hlt & H1 & H2)]; rewrite Hr.
  - split; [apply ltb_irrefl | assumption].
  - split.
    + destruct (ltb (score (f x)) (score init)) eqn:E; [|reflexivity].
      pose proof (ltb_trans _ _ _ Hlt E) as Hc. rewrite ltb_irrefl in Hc. discriminate.
    + intros y Hy. apply in_app_or in Hy as [Hy | [<- | Hy]].
      * unfold gtb. destruct (ltb (score (f x)) (score (f y))) eqn:E; [|reflexivity].
        specialize (H1 y Hy).
        unfold ltb, leb, SFltb, SFleb in *.
        destruct (SFcompare (score (f x)) (score (f y))) as [[]|]; congruence.
      * apply ltb_irrefl.
      * auto.
Qed.

Lemma keep_best_in (l : list B) (init : A) :
  keep_best score f l init = init \/ exists x, In x l /\ keep_best score f l init = f x.
Proof.
  destruct (keep_best_spec l init)
    as [[Hr Hl] | (l1 & x & l2 & -> & Hr & Hlt & H1 & H2)]; [now left|].
  right. exists x. split; [|assumption]. apply in_or_app. right. now left.
Qed.

End KeepBest.

(** Python's [max] is the loop above started from the head of the list. *)
Lemma py_max_from_keep_best {A : Type} (key : A -> float) (l : list A) (b : A) :
  py_max_from key b l = keep_best key (fun x => x) l b.
Proof.
  revert b. induction l as [|x l IH]; intros b; [reflexivity|].
  cbn [py_max_from]. rewrite IH. reflexivity.
Qed.

Lemma py_max_from_in {A : Type} (key : A -> float) (l : list A) (b : A) :
  In (py_max_from key b l) (b :: l).
Proof.
  rewrite py_max_from_keep_best.
  destruct (keep_best_in key (fun x => x) l b) as [-> | (x & Hx & ->)];
    [now left | now right].
Qed.

Lemma py_max_from_upper {A : Type} (key : A -> float) (l : list A) (b x : A) :
  In x (b :: l) -> gtb (key x) (key (py_max_from key b l)) = false.
Proof.
  rewrite py_max_from_keep_best.
  destruct (keep_best_upper key (fun x => x) l b) as [Hb Hl].
  intros [<- | Hx]; [exact Hb | now apply Hl].
Qed.

(** Python's [min]: no element of the list is below the outcome, which is
    one of them. *)
Lemma py_min_from_in (l : list float) (b : float) :
  In (py_min_from b l) (b :: l).
Proof.
  revert b. induction l as [|x l IH]; intros b; [now left|].
  cbn [py_min_from].
  destruct (IH (if ltb x b then x else b)) as [H | H].
  - destruct (ltb x b); [right; left | left]; congruence.
  - right. now right.
Qed.

Lemma py_min_from_keeps (l : list float) (b y : float) :
  ltb y b = false -> ltb y (py_min_from b l) = false.
Proof.
  revert b. induction l as [|a l IH]; intros b Hy; [exact Hy|].
  cbn [py_min_from]. apply IH.
  destruct (ltb a b) eqn:Eab; [|exact Hy].
  destruct (ltb y a) eqn:E; [|reflexivity].
  rewrite (ltb_trans _ _ _ E Eab) in Hy. discriminate.
Qed.

Lemma py_min_from_lower (l : list float) (b x : float) :
  In x (b :: l) -> ltb x (py_min_from b l) = false.
Proof.
  revert b. induction l as [|a l IH]; intros b [<- | Hx].
  - apply ltb_irrefl.
  - destruct Hx.
  - apply py_min_from_keeps, ltb_irrefl.
  - cbn [py_min_from]. destruct Hx as [<- | Hx].
    + apply py_min_from_keeps.
      destruct (ltb a b) eqn:E; [apply ltb_irrefl | exact E].
    + apply IH. now right.
Qed.

(** ** Characters and strings *)

#[local] Ltac by_cases_on_char c :=
  destruct c as [[] [] [] [] [] [] [] []]; vm_compute; try reflexivity;
  try discriminate; try tauto.

Lemma lower_char_not_A_circumflex (c : ascii) :
  Ascii.eqb (ascii_of_N 194) (lower_char c) = false.
Proof. by_cases_on_char c. Qed.

Lemma decimal_not_space (c : ascii) : is_decimal c = true -> isspace c = false.
Proof. by_cases_on_char c. Qed.

Lemma decimal_not_blank (c : ascii) : is_decimal c = true -> Ascii.eqb c " " = false.
Proof. by_cases_on_char c. Qed.

Lemma decimal_not_sign (c : ascii) : is_decimal c = true -> is_sign c = false.
Proof. by_cases_on_char c. Qed.

Lemma decimal_not_dot (c : ascii) : is_decimal c = true -> Ascii.eqb c "." = false.
Proof. by_cases_on_char c. Qed.

Lemma decimal_isdigit (c : ascii) : is_decimal c = true -> isdigit_char c = true.
Proof. by_cases_on_char c. Qed.

Lemma sign_not_space (c : ascii) : is_sign c = true -> isspace c = false.
Proof. by_cases_on_char c. Qed.

Lemma sign_not_blank (c : ascii) : is_sign c = true -> Ascii.eqb c " " = false.
Proof. by_cases_on_char c. Qed.

Lemma sign_cases (c : ascii) : is_sign c = true -> c = "+"%char \/ c = "-"%char.
Proof.
  unfold is_sign. intros H. apply orb_true_iff in H as [H | H];
    apply Ascii.eqb_eq in H; auto.
Qed.

Lemma decimal_digit_val (c : ascii) :
  is_decimal c = true -> (0 <= digit_val c <= 9)%Z.
Proof.
  destruct c as [[] [] [] [] [] [] [] []]; vm_compute; try discriminate;
    intros _; split; discriminate.
Qed.

Lemma string_app_cons (x : ascii) (a b : string) :
  String x a ++ b = String x (a ++ b).
Proof. reflexivity. Qed.

Lemma string_app_nil_l (a : string) : "" ++ a = a.
Proof. reflexivity. Qed.

#[local] Ltac simpl_str := rewrite ?string_app_cons, ?string_app_nil_l; simpl.

Lemma all_chars_app (p : ascii -> bool) (a b : string) :
  all_chars p (a ++ b) = all_chars p a && all_chars p b.
Proof.
  induction a as [|c a IH]; simpl_str; [reflexivity|].
  rewrite IH. apply andb_assoc.
Qed.

Lemma all_chars_impl (p q : ascii -> bool) (s : string) :
  (forall c, p c = true -> q c = true) ->
  all_chars p s = true -> all_chars q s = true.
Proof.
  intros Hpq. induction s as [|c s IH]; simpl; [reflexivity|].
  intros H. apply andb_true_iff in H as [Hc Hs].
  rewrite (Hpq _ Hc), (IH Hs). reflexivity.
Qed.

Lemma filter_chars_id (p : ascii -> bool) (s : string) :
  all_chars p s = true -> filter_chars p s = s.
Proof.
  induction s as [|c s IH]; simpl; [reflexivity|].
  intros H. apply andb_true_iff in H as [Hc Hs].
  rewrite Hc, (IH Hs). reflexivity.
Qed.

Lemma rstrip_id (s : string) :
  all_chars (fun c => negb (isspace c)) s = true -> rstrip s = s.
Proof.
  induction s as [|c s IH]; simpl; [reflexivity|].
  intros H. apply andb_true_iff in H as [Hc Hs].
  rewrite (IH Hs). apply negb_true_iff in Hc. rewrite Hc.
  destruct s; reflexivity.
Qed.

Lemma strip_id (s : string) :
  all_chars (fun c => negb (isspace c)) s = true -> strip s = s.
Proof.
  intros H. unfold strip.
  assert (Hl : lstrip s = s).
  { destruct s as [|c s]; [reflexivity|]. simpl in *.
    apply andb_true_iff in H as [Hc _]. apply negb_true_iff in Hc.
    now rewrite Hc. }
  rewrite Hl. now apply rstrip_id.
Qed.

Lemma is_empty_false (s : string) : is_empty s = false <-> s <> "".
Proof. destruct s; simpl; split; congruence. Qed.

Lemma is_empty_app (a b : string) :
  is_empty (a ++ b) = is_empty a && is_empty b.
Proof. destruct a; reflexivity. Qed.

Lemma string_app_assoc (a b c : string) : (a ++ b) ++ c = a ++ (b ++ c).
Proof. induction a as [|x a IH]; simpl_str; [reflexivity | now rewrite IH]. Qed.

Lemma string_app_nil_r (a : string) : a ++ "" = a.
Proof. induction a as [|x a IH]; simpl_str; [reflexivity | now rewrite IH]. Qed.

Lemma string_length_app (a b : string) :
  String.length (a ++ b) = (String.length a + String.length b)%nat.
Proof. induction a as [|x a IH]; simpl_str; [reflexivity | now rewrite IH]. Qed.

(** ** The regular expressions *)

Lemma span_digits_inv (s ds rest : string) :
  span_digits s = (ds, rest) ->
  s = ds ++ rest /\ all_chars is_decimal ds = true /\ no_digit_ahead rest.
Proof.
  revert ds rest. induction s as [|c s IH]; simpl; intros ds rest H.
  - inversion H; subst. repeat split.
  - destruct (is_decimal c) eqn:Ec.
    + destruct (span_digits s) as [ds' rest'] eqn:E.
      inversion H; subst. destruct (IH _ _ eq_refl) as (-> & Hd & Hn).
      simpl_str. rewrite Ec, Hd. repeat split. assumption.
    + inversion H; subst. simpl_str. rewrite Ec. repeat split.
Qed.

Lemma span_digits_app (ds rest : string) :
  all_chars is_decimal ds = true -> no_digit_ahead rest ->
  span_digits (ds ++ rest) = (ds, rest).
Proof.
  induction ds as [|c ds IH]; simpl_str; intros Hd Hn.
  - destruct rest as [|c r]; [reflexivity|]. simpl in *. now rewrite Hn.
  - apply andb_true_iff in Hd as [Hc Hd]. rewrite Hc, (IH Hd Hn). reflexivity.
Qed.

Lemma match_unsigned_form (s m rest : string) :
  match_unsigned s = Some (m, rest) -> unsigned_form m /\ s = m ++ rest.
Proof.
  unfold match_unsigned.
  destruct (span_digits s) as [ds r] eqn:E.
  apply span_digits_inv in E as (-> & Hd & Hn).
  destruct (is_empty ds) eqn:Ee; [discriminate|].
  apply is_empty_false in Ee.
  assert (Hplain : unsigned_form ds).
  { exists ds, "". repeat split; auto. }
  destruct r as [|c r]; [intros H; inversion H; subst; auto|].
  destruct (Ascii.eqb c ".") eqn:Ec.
  - apply Ascii.eqb_eq in Ec. subst c.
    destruct (span_digits r) as [fs r'] eqn:E'.
    apply span_digits_inv in E' as (-> & Hf & Hn').
    destruct (is_empty fs) eqn:Ef; intros H; inversion H; subst; clear H.
    + split; [assumption | reflexivity].
    + apply is_empty_false in Ef. split.
      * exists ds, fs. repeat split; auto.
      * simpl_str. rewrite string_app_assoc. simpl_str. reflexivity.
  - assert (Hc : c <> "."%char) by (intros ->; discriminate).
    destruct c as [[] [] [] [] [] [] [] []]; try (exfalso; apply Hc; reflexivity);
      intros H; inversion H; subst; auto.
Qed.

Lemma match_number_form (s n : string) :
  match_number s = Some n -> number_form n.
Proof.
  unfold match_number. destruct s as [|c s]; [discriminate|].
  assert (Hu : fst <$> match_unsigned (String c s) = Some n -> number_form n).
  { destruct (match_unsigned (String c s)) as [[m r]|] eqn:E; [|discriminate].
    simpl. intros H; inversion H; subst.
    left. now apply match_unsigned_form in E as [? _]. }
  destruct (is_sign c) eqn:Ec; [|exact Hu].
  destruct (match_unsigned s) as [[m r]|] eqn:E; [|exact Hu].
  intros H; inversion H; subst. right. exists c, m.
  apply match_unsigned_form in E as [? _]. auto.
Qed.

Lemma search_number_form (s n : string) :
  search_number s = Some n -> number_form n.
Proof.
  induction s as [|c s IH].
  - discriminate.
  - cbn [search_number].
    destruct (match_number (String c s)) as [m|] eqn:E.
    + intros H; inversion H; subst. eapply match_number_form; eauto.
    + exact IH.
Qed.

(** Every numeric string the normaliser extracts has the form of the
    pattern. *)
Lemma extract_num_str_form (txt n : string) :
  extract_num_str txt = Some n -> number_form n.
Proof.
  unfold extract_num_str. destruct (is_empty txt); [discriminate|].
  apply search_number_form.
Qed.

Lemma unsigned_form_chars (m : string) :
  unsigned_form m ->
  all_chars (fun c => is_decimal c || Ascii.eqb c ".") m = true
  /\ exists c m', m = String c m' /\ is_decimal c = true.
Proof.
  intros (ds & fs & Hne & Hd & Hf & H).
  assert (Hhead : exists c ds', ds = String c ds' /\ is_decimal c = true).
  { destruct ds as [|c ds']; [congruence|]. simpl in Hd.
    apply andb_true_iff in Hd as [Hc _]. eauto. }
  destruct Hhead as (c & ds' & -> & Hc).
  assert (Hd' : all_chars (fun c => is_decimal c || Ascii.eqb c ".") (String c ds') = true).
  { eapply all_chars_impl; [|exact Hd]. intros ? ->. reflexivity. }
  destruct H as [[-> ->] | [Hfe ->]].
  - split; [assumption | eauto].
  - split.
    + rewrite all_chars_app, Hd'. simpl_str.
      eapply all_chars_impl; [|exact Hf]. intros ? ->. reflexivity.
    + exists c, (ds' ++ "." ++ fs). split; [reflexivity | assumption].
Qed.

Lemma number_form_no_space (n : string) :
  number_form n ->
  all_chars (fun c => negb (isspace c)) n = true
  /\ all_chars (fun c => negb (Ascii.eqb c " ")) n = true
  /\ n <> "".
Proof.
  assert (Hu : forall m, unsigned_form m ->
             all_chars (fun c => negb (isspace c)) m = true
             /\ all_chars (fun c => negb (Ascii.eqb c " ")) m = true).
  { intros m Hm. apply unsigned_form_chars in Hm as [Hm _].
    split; (eapply all_chars_impl; [|exact Hm]); intros c Hc;
      destruct c as [[] [] [] [] [] [] [] []]; vm_compute in Hc |- *;
      congruence. }
  intros [Hm | (c & m & Hc & Hm & ->)].
  - destruct (Hu _ Hm) as [H1 H2]. repeat split; auto.
    apply unsigned_form_chars in Hm as [_ (c & m' & -> & _)]. discriminate.
  - destruct (Hu _ Hm) as [H1 H2]. simpl.
    rewrite (sign_not_space _ Hc), (sign_not_blank _ Hc), H1, H2.
    repeat split. discriminate.
Qed.

Lemma span_digits_all (ds : string) :
  all_chars is_decimal ds = true -> span_digits ds = (ds, "").
Proof.
  intros Hd. pose proof (span_digits_app ds "" Hd I) as H.
  now rewrite string_app_nil_r in H.
Qed.

(** [float] reads every signed string of the pattern. *)
Lemma py_float_signed (c : ascii) (m : string) :
  is_sign c = true -> unsigned_form m ->
  exists n k, py_float (String c m) = Some (decimal (Ascii.eqb c "-") n k).
Proof.
  intros Hc Hm.
  assert (Hn : number_form (String c m)) by (right; eauto).
  apply number_form_no_space in Hn as (Hs & _ & _).
  unfold py_float. rewrite (strip_id _ Hs).
  assert (Hsg : startswith_sign (String c m) = true).
  { apply sign_cases in Hc as [-> | ->]; reflexivity. }
  rewrite Hsg. cbn [drop1].
  assert (Hneg : startswith "-" (String c m) = Ascii.eqb c "-").
  { cbn [startswith]. rewrite andb_true_r. apply Ascii.eqb_sym. }
  rewrite Hneg.
  destruct Hm as (ds & fs & Hne & Hd & Hf & [[-> ->] | [Hfe ->]]).
  - rewrite (span_digits_all _ Hd).
    apply is_empty_false in Hne. rewrite Hne. eauto.
  - rewrite span_digits_app by (simpl; auto). simpl_str.
    rewrite (span_digits_all _ Hf).
    apply is_empty_false in Hne. rewrite Hne. simpl. eauto.
Qed.

(** ** Temperature hint *)

Lemma degree_literal_never_in_lower (txt : string) :
  contains degree_literal (lower txt) = false.
Proof.
  induction txt as [|c t IH]; [reflexivity|].
  cbn [lower contains]. rewrite IH, orb_false_r.
  unfold degree_literal. cbn [startswith].
  now rewrite lower_char_not_A_circumflex.
Qed.

(** C8, evaluated on the code.  The claim says that [has_temp_hint] answers
    true on the letter c or on a degree-sign glyph, and that some text with a
    degree sign and no c is accepted.  On the code the glyph test never
    fires: the literal it looks for starts with the capital U+00C2, which no
    lowercased text contains, so [has_temp_hint] is exactly the test for the
    letter c; the texts "25" followed by the degree sign U+00B0, and "25"
    followed by the literal of the source itself, are both refused. *)
Theorem has_temp_hint_ignores_degree_sign :
  (forall txt, has_temp_hint txt = contains "c" (lower txt))
  /\ has_temp_hint (String "2" (String "5" (String (ascii_of_N 176) ""))) = false
  /\ has_temp_hint (String "2" (String "5" degree_literal)) = false.
Proof.
  split; [|split; reflexivity].
  intros txt. unfold has_temp_hint.
  now rewrite degree_literal_never_in_lower, orb_false_r.
Qed.

(** ** Temperature repair on the test vector "963" *)

(** C1, as stated, fails: [repair_temp("963")] is not a rejection. *)
Lemma repair_temp_963_not_rejected : repair_temp (Some "963") <> None.
Proof. vm_compute. discriminate. Qed.

(** C1, amended.  The candidates of "963" are 96.0, 63.0 and 96.3; the first
    and the third exceed 80.0, the last-two-digits candidate 63.0 does not,
    and [repair_temp("963")] returns it. *)
Theorem repair_temp_963 :
  temp_candidates "963" = [of_int 96; of_int 63; decimal false 963 1]
  /\ List.filter (fun c => leb c TEMP_MAX) (temp_candidates "963") = [of_int 63]
  /\ repair_temp (Some "963") = Some (of_int 63).
Proof. repeat split; vm_compute; reflexivity. Qed.

(** ** Angle normalisation *)

(** C7.  For every numeric string [n] (a string the normaliser extracts from
    some text), [normalize_angle] works on [s], which is [n] with a "+" put in
    front when [n] has no sign; [float] reads [s]; the answer is [None]
    exactly when the parse fails or the absolute value of the number read
    exceeds 100.0, and any other answer is the string [s] itself.  In
    particular "5" gives "+5", "-120" gives [None] and "+45.5" gives
    "+45.5". *)
Theorem normalize_angle_numeric :
  (forall txt n : string,
     extract_num_str txt = Some n ->
     let s := if startswith_sign n then n else "+" ++ n in
     (exists v, py_float s = Some v)
     /\ (normalize_angle (Some n) = None
         <-> py_float s = None
             \/ exists v, py_float s = Some v /\ gtb (abs v) ANGLE_LIMIT_ABS = true)
     /\ (forall r, normalize_angle (Some n) = Some r -> r = s))
  /\ normalize_angle (Some "5") = Some "+5"
  /\ normalize_angle (Some "-120") = None
  /\ normalize_angle (Some "+45.5") = Some "+45.5".
Proof.
  split; [|repeat split; vm_compute; reflexivity].
  intros txt n Hn s.
  apply extract_num_str_form in Hn.
  destruct (number_form_no_space _ Hn) as (_ & Hsp & Hne).
  assert (Hs : exists c m, s = String c m /\ is_sign c = true /\ unsigned_form m).
  { subst s. destruct Hn as [Hm | (c & m & Hc & Hm & ->)].
    - destruct (unsigned_form_chars _ Hm) as [_ (c & m' & -> & Hc)].
      assert (Hns : startswith_sign (String c m') = false).
      { unfold startswith_sign. cbn [startswith].
        apply decimal_not_sign in Hc. unfold is_sign in Hc.
        rewrite !andb_true_r, (Ascii.eqb_sym "+" c), (Ascii.eqb_sym "-" c).
        exact Hc. }
      rewrite Hns. exists "+"%char, (String c m'). auto.
    - assert (Hsg : startswith_sign (String c m) = true).
      { apply sign_cases in Hc as [-> | ->]; reflexivity. }
      rewrite Hsg. exists c, m. split; [reflexivity|]. split; [|assumption].
      apply orb_true_iff. apply orb_true_iff in Hsg. unfold is_sign.
      cbn [startswith] in Hsg. rewrite !andb_true_r in Hsg.
      rewrite (Ascii.eqb_sym c "+"), (Ascii.eqb_sym c "-"). exact Hsg. }
  destruct Hs as (c & m & Es & Hc & Hm).
  destruct (py_float_signed c m Hc Hm) as (k & j & Hv). rewrite <- Es in Hv.
  assert (Hnorm : normalize_angle (Some n)
                  = if gtb (abs (decimal (Ascii.eqb c "-") k j)) ANGLE_LIMIT_ABS
                    then None else Some s).
  { unfold normalize_angle.
    apply is_empty_false in Hne. rewrite Hne.
    unfold remove_spaces. rewrite (filter_chars_id _ _ Hsp).
    fold s. rewrite Hv. reflexivity. }
  split; [eauto|]. split.
  - rewrite Hnorm, Hv. split.
    + destruct (gtb _ _) eqn:E; [|discriminate]. intros _. right. eauto.
    + intros [H | (v & H & Hgt)]; [discriminate|].
      inversion H; subst v. now rewrite Hgt.
  - intros r. rewrite Hnorm. destruct (gtb _ _); [discriminate|].
    intros H; inversion H; reflexivity.
Qed.

Lemma normalize_angle_numeric_witness :
  extract_num_str "angle +45.5" = Some "+45.5"
  /\ forall r, normalize_angle (Some "+45.5") = Some r -> r = "+45.5".
Proof.
  split; [reflexivity|].
  exact (proj2 (proj2 (proj1 normalize_angle_numeric "angle +45.5" "+45.5" eq_refl))).
Defined.

(** ** Temperature repair of long digit strings *)

Lemma all_chars_substring (p : ascii -> bool) (s : string) (n m : nat) :
  all_chars p s = true -> all_chars p (substring n m s) = true.
Proof.
  revert n m. induction s as [|c s IH]; intros n m H.
  - destruct n, m; reflexivity.
  - simpl in H. apply andb_true_iff in H as [Hc Hs].
    destruct n as [|n], m as [|m]; simpl; auto.
    rewrite Hc. simpl. auto.
Qed.

Lemma length_substring_le (s : string) (n m : nat) :
  (String.length (substring n m s) <= m)%nat.
Proof.
  revert n m. induction s as [|c s IH]; intros n m.
  - destruct n, m; simpl; lia.
  - destruct n as [|n], m as [|m]; simpl; try lia.
    + specialize (IH 0%nat m). lia.
    + apply (IH n 0%nat).
    + apply (IH n (S m)).
Qed.

Lemma int_acc_bounds (s : string) (acc : Z) :
  all_chars is_decimal s = true -> (0 <= acc)%Z ->
  (0 <= int_acc acc s < (acc + 1) * 10 ^ Z.of_nat (String.length s))%Z.
Proof.
  revert acc. induction s as [|c s IH]; intros acc H Hacc.
  - simpl. lia.
  - simpl in H. apply andb_true_iff in H as [Hc Hs].
    pose proof (decimal_digit_val c Hc) as Hd.
    cbn [int_acc String.length].
    specialize (IH (10 * acc + digit_val c)%Z Hs ltac:(lia)).
    rewrite Nat2Z.inj_succ, Z.pow_succ_r by lia.
    split; [lia|]. eapply Z.lt_le_trans; [apply IH|].
    assert (0 < 10 ^ Z.of_nat (String.length s))%Z by (apply Z.pow_pos_nonneg; lia).
    nia.
Qed.

Lemma int_two_digits (s : string) (n : nat) :
  all_chars is_decimal s = true -> (0 <= int (substring n 2 s) <= 99)%Z.
Proof.
  intros H.
  pose proof (int_acc_bounds _ 0 (all_chars_substring _ s n 2 H) ltac:(lia)) as Hb.
  pose proof (length_substring_le s n 2) as Hl.
  fold (int (substring n 2 s)) in Hb.
  assert (10 ^ Z.of_nat (String.length (substring n 2 s)) <= 10 ^ 2)%Z
    by (apply Z.pow_le_mono_r; lia).
  lia.
Qed.

Lemma py_float_unsigned_frac (ds fs : string) :
  ds <> "" -> fs <> "" ->
  all_chars is_decimal ds = true -> all_chars is_decimal fs = true ->
  py_float (ds ++ "." ++ fs)
  = Some (decimal false (int (ds ++ fs)) (String.length fs)).
Proof.
  intros Hne Hfe Hd Hf.
  assert (Hm : unsigned_form (ds ++ "." ++ fs)).
  { exists ds, fs. repeat split; auto. }
  destruct (unsigned_form_chars _ Hm) as [_ (c & m' & E & Hc)].
  assert (Hn : number_form (ds ++ "." ++ fs)) by now left.
  apply number_form_no_space in Hn as (Hs & _ & _).
  unfold py_float. rewrite (strip_id _ Hs).
  assert (Hsg : startswith_sign (ds ++ "." ++ fs) = false).
  { rewrite E. unfold startswith_sign. cbn [startswith].
    apply decimal_not_sign in Hc. unfold is_sign in Hc.
    rewrite !andb_true_r, (Ascii.eqb_sym "+" c), (Ascii.eqb_sym "-" c).
    exact Hc. }
  assert (Hneg : startswith "-" (ds ++ "." ++ fs) = false).
  { unfold startswith_sign in Hsg. now apply orb_false_iff in Hsg as [_ ?]. }
  rewrite Hsg, Hneg.
  rewrite span_digits_app by (simpl; auto). simpl_str.
  rewrite (span_digits_all _ Hf).
  apply is_empty_false in Hne. rewrite Hne. reflexivity.
Qed.

Lemma find_filter_head {A : Type} (p : A -> bool) (l : list A) :
  match List.filter p l with d :: _ => Some d | [] => None end = List.find p l.
Proof.
  induction l as [|x l IH]; simpl; [reflexivity|].
  destruct (p x); [reflexivity | exact IH].
Qed.

Lemma contains_dot_digits (s : string) :
  all_chars is_decimal s = true -> contains "." s = false.
Proof.
  induction s as [|c s IH]; [reflexivity|].
  cbn [contains startswith all_chars].
  intros H. apply andb_true_iff in H as [Hc Hs].
  rewrite (IH Hs), orb_false_r, andb_true_r.
  rewrite Ascii.eqb_sym. now apply decimal_not_dot.
Qed.

(** On a string of three or more decimal digits [repair_temp] goes straight
    to its candidates. *)
Lemma repair_temp_digits (s : string) :
  all_chars is_decimal s = true -> (3 <= String.length s)%nat ->
  repair_temp (Some s)
  = match List.filter (fun c => leb c TEMP_MAX) (temp_candidates s) with
    | [] => None
    | v0 :: rest =>
        match List.filter has_fraction (v0 :: rest) with
        | d :: _ => Some d
        | [] => Some (py_min_from v0 rest)
        end
    end.
Proof.
  intros Hd Hlen. unfold repair_temp.
  assert (Hne : is_empty s = false) by (destruct s; [simpl in Hlen; lia | reflexivity]).
  assert (Hsp : all_chars (fun c => negb (isspace c)) s = true).
  { eapply all_chars_impl; [|exact Hd]. intros c Hc.
    now rewrite (decimal_not_space _ Hc). }
  assert (Hsg : startswith_sign s = false).
  { destruct s as [|c s]; [reflexivity|]. simpl in Hd.
    apply andb_true_iff in Hd as [Hc _].
    unfold startswith_sign. cbn [startswith].
    apply decimal_not_sign in Hc. unfold is_sign in Hc.
    rewrite !andb_true_r, (Ascii.eqb_sym "+" c), (Ascii.eqb_sym "-" c).
    exact Hc. }
  assert (Hbl : all_chars (fun c => negb (Ascii.eqb c " ")) s = true).
  { eapply all_chars_impl; [|exact Hd]. intros c Hc.
    now rewrite (decimal_not_blank _ Hc). }
  assert (Hkeep : all_chars (fun c => is_decimal c || Ascii.eqb c ".") s = true).
  { eapply all_chars_impl; [|exact Hd]. intros c ->. reflexivity. }
  assert (Hdig : isdigit s = true).
  { unfold isdigit. rewrite Hne. simpl.
    eapply all_chars_impl; [|exact Hd]. apply decimal_isdigit. }
  assert (Hlong : (String.length s <=? 2)%nat = false) by (apply Nat.leb_gt; lia).
  rewrite Hne, (strip_id _ Hsp), Hsg.
  unfold remove_spaces. rewrite (filter_chars_id _ _ Hbl), (filter_chars_id _ _ Hkeep).
  rewrite Hne, (contains_dot_digits _ Hd), Hdig, Hlong. cbn [negb].
  destruct (List.filter (fun c => leb c TEMP_MAX) (temp_candidates s));
    reflexivity.
Qed.

(** The candidates the code builds are those the specification lists. *)
Lemma temp_candidates_spec (s : string) :
  all_chars is_decimal s = true -> (3 <= String.length s)%nat ->
  temp_candidates s = spec_candidates s.
Proof.
  intros Hd Hlen. unfold temp_candidates, spec_candidates.
  assert (H3 : (3 <=? String.length s)%nat = true) by (apply Nat.leb_le; lia).
  rewrite H3. f_equal.
  destruct (String.length s =? 3)%nat eqn:E; [|reflexivity].
  apply Nat.eqb_eq in E.
  destruct s as [|a [|b [|c [|? ?]]]]; try discriminate.
  simpl in Hd.
  apply andb_true_iff in Hd as [Ha Hd]. apply andb_true_iff in Hd as [Hb Hd].
  apply andb_true_iff in Hd as [Hc _].
  change (first2 (String a (String b (String c "")))) with (String a (String b "")).
  change (substring 2 1 (String a (String b (String c "")))) with (String c "").
  rewrite py_float_unsigned_frac; try discriminate; simpl; rewrite ?Ha, ?Hb, ?Hc; reflexivity.
Qed.

(** Facts on the binary64 numbers the candidates range over, by exhaustive
    evaluation: an integer below 100 has no fractional part, and a number of
    tenths below 100 has one exactly when it is not a multiple of ten. *)
Lemma has_fraction_two_digits (z : Z) :
  (0 <= z <= 99)%Z -> has_fraction (of_int z) = false.
Proof.
  intros Hz.
  assert (H : forallb (fun n => negb (has_fraction (of_int (Z.of_nat n))))
                      (seq 0 100) = true) by (vm_compute; reflexivity).
  rewrite forallb_forall in H.
  assert (Hin : In (Z.to_nat z) (seq 0 100)) by (apply in_seq; lia).
  specialize (H (Z.to_nat z) Hin). rewrite Z2Nat.id in H by lia.
  apply negb_true_iff in H. exact H.
Qed.

Lemma has_fraction_tenths (z : Z) :
  (0 <= z <= 999)%Z ->
  has_fraction (decimal false z 1) = negb (z mod 10 =? 0)%Z.
Proof.
  intros Hz.
  assert (H : forallb (fun n => Bool.eqb (has_fraction (decimal false (Z.of_nat n) 1))
                                         (negb (Z.of_nat n mod 10 =? 0)%Z))
                      (seq 0 1000) = true) by (vm_compute; reflexivity).
  rewrite forallb_forall in H.
  assert (Hin : In (Z.to_nat z) (seq 0 1000)) by (apply in_seq; lia).
  specialize (H (Z.to_nat z) Hin). rewrite Z2Nat.id in H by lia.
  apply Bool.eqb_prop in H. exact H.
Qed.

Lemma leb_not_nan (a b : float) : leb a b = true -> a <> S754_nan.
Proof. intros H ->. discriminate. Qed.

(** C3.  For every string [s] of three or more decimal digits, [repair_temp]
    builds the candidates the specification lists (the first two digits as an
    integer, the last two digits as an integer and, for exactly three digits,
    the three digits as a number of tenths).  The two integers have no
    fractional part in the sense of the code, and the number of tenths has
    one exactly when the third digit is not zero.  With [valid] the
    candidates that are at most 80.0: when none survives the answer is
    [None]; when a surviving candidate has a fractional part the answer is
    the first such; otherwise the answer is a surviving candidate that every
    surviving candidate is greater than or equal to.  In particular
    [repair_temp("375")] is 37.5, that is 75 * 2^46 * 2^-47. *)
Theorem repair_temp_long_digits :
  (forall s : string,
     all_chars is_decimal s = true -> (3 <= String.length s)%nat ->
     let valid := List.filter (fun c => leb c TEMP_MAX) (spec_candidates s) in
     temp_candidates s = spec_candidates s
     /\ (has_fraction (of_int (int (first2 s))) = false
         /\ has_fraction (of_int (int (last2 s))) = false
         /\ (String.length s = 3%nat ->
             has_fraction (decimal false (int s) 1) = negb (int s mod 10 =? 0)%Z))
     /\ (valid = [] -> repair_temp (Some s) = None)
     /\ (forall d, List.find has_fraction valid = Some d ->
                   repair_temp (Some s) = Some d)
     /\ (valid <> [] -> List.find has_fraction valid = None ->
         exists r, repair_temp (Some s) = Some r /\ In r valid
                   /\ forall x, In x valid -> leb r x = true))
  /\ repair_temp (Some "375") = Some (decimal false 375 1)
  /\ decimal false 375 1 = S754_finite false (75 * 2 ^ 46) (-47).
Proof.
  split; [|split; vm_compute; reflexivity].
  intros s Hd Hlen valid.
  pose proof (repair_temp_digits s Hd Hlen) as Hr.
  rewrite (temp_candidates_spec s Hd Hlen) in Hr. fold valid in Hr.
  split; [now apply temp_candidates_spec|]. split.
  { split; [apply has_fraction_two_digits, int_two_digits, Hd|].
    split; [apply has_fraction_two_digits, int_two_digits, Hd|].
    intros H3. apply has_fraction_tenths.
    pose proof (int_acc_bounds s 0 Hd ltac:(lia)) as Hb. fold (int s) in Hb.
    rewrite H3 in Hb. simpl in Hb. lia. }
  split; [intros Hv; now rewrite Hr, Hv|]. split.
  - intros d Hf. rewrite Hr. destruct valid as [|v0 rest]; [discriminate|].
    rewrite <- find_filter_head in Hf.
    destruct (List.filter has_fraction (v0 :: rest)); congruence.
  - intros Hne Hf. rewrite Hr. destruct valid as [|v0 rest] eqn:Ev; [congruence|].
    rewrite <- find_filter_head in Hf.
    destruct (List.filter has_fraction (v0 :: rest)); [|discriminate].
    exists (py_min_from v0 rest). split; [reflexivity|].
    pose proof (py_min_from_in rest v0) as Hin. split; [exact Hin|].
    assert (Hnn : forall x, In x (v0 :: rest) -> x <> S754_nan).
    { intros x Hx. rewrite <- Ev in Hx. unfold valid in Hx.
      apply filter_In in Hx as [_ Hx]. eapply leb_not_nan; eauto. }
    intros x Hx. apply not_ltb_leb; auto. now apply py_min_from_lower.
Qed.

Lemma repair_temp_long_digits_witness :
  all_chars is_decimal "4219" = true /\ (3 <= String.length "4219")%nat
  /\ exists r, repair_temp (Some "4219") = Some r
               /\ In r (List.filter (fun c => leb c TEMP_MAX) (spec_candidates "4219"))
               /\ forall x, In x (List.filter (fun c => leb c TEMP_MAX)
                                              (spec_candidates "4219")) ->
                            leb r x = true.
Proof.
  split; [reflexivity|]. split; [simpl; lia|].
  apply (proj1 repair_temp_long_digits "4219" eq_refl); [simpl; lia | | reflexivity].
  vm_compute. discriminate.
Defined.

(** ** Dictionaries filled in a loop *)

Section FilledMap.

Context {V : Type} `{!Inhabited V}.
Variable g : Z -> V.

Lemma fold_insert_other (l : list Z) (m : gmap Z V) (r : Z) :
  ~ In r l -> fold_left (fun m k => <[k := g k]> m) l m !! r = m !! r.
Proof.
  revert m. induction l as [|a l IH]; intros m Hr; [reflexivity|].
  cbn [fold_left]. rewrite IH by (intros H; apply Hr; now right).
  apply lookup_insert_ne. intros ->. apply Hr. now left.
Qed.

Lemma fold_insert_lookup (l : list Z) (m : gmap Z V) (r : Z) :
  In r l -> fold_left (fun m k => <[k := g k]> m) l m !! r = Some (g r).
Proof.
  revert m. induction l as [|a l IH]; intros m Hr; [destruct Hr|].
  cbn [fold_left].
  destruct (In_dec Z.eq_dec r l) as [Hl | Hl]; [now apply IH|].
  destruct Hr as [-> | Hr]; [|contradiction].
  rewrite fold_insert_other by assumption. apply lookup_insert_eq.
Qed.

(** After the loop, [m[r]] is the value stored for [r]. *)
Lemma fold_insert_total (l : list Z) (r : Z) :
  In r l -> fold_left (fun (m : gmap Z V) k => <[k := g k]> m) l ∅ !!! r = g r.
Proof.
  intros Hr. apply lookup_total_correct. now apply fold_insert_lookup.
Qed.

End FilledMap.

Lemma py_max_from_ext {A : Type} (k1 k2 : A -> float) (l : list A) (b : A) :
  (forall x, In x (b :: l) -> k1 x = k2 x) ->
  py_max_from k1 b l = py_max_from k2 b l.
Proof.
  revert b. induction l as [|x l IH]; intros b H; [reflexivity|].
  cbn [py_max_from].
  rewrite (H x) by (right; now left). rewrite (H b) by now left.
  apply IH. intros y [<- | Hy].
  - destruct (gtb (k2 x) (k2 b)); apply H; [right; now left | now left].
  - apply H. right. now right.
Qed.

Lemma py_max_ext {A : Type} `{!Inhabited A} (k1 k2 : A -> float) (l : list A) :
  (forall x, In x l -> k1 x = k2 x) -> py_max k1 l = py_max k2 l.
Proof.
  destruct l as [|b l]; [reflexivity|]. apply py_max_from_ext.
Qed.

Lemma py_max_in {A : Type} `{!Inhabited A} (key : A -> float) (l : list A) :
  l <> [] -> In (py_max key l) l.
Proof.
  destruct l as [|b l]; [congruence|]. intros _. apply py_max_from_in.
Qed.

(** ** The rotation selector *)

Section Selector.

Context {image : Type} `{!Inhabited image}.
Variable rotate_gray : image -> Z -> image.
Variable enhance_for_ocr : image -> image.
Variable predict : image -> option (option string * float).

(** The selector, with its two dictionaries read as the functions that
    filled them. *)
Lemma choose_rotation_unfold (angle_imgs temp_imgs depth_imgs : list (string * image)) :
  choose_rotation rotate_gray enhance_for_ocr predict angle_imgs temp_imgs depth_imgs
  = match List.filter (fun r => sign_first (s_txt (probe_at rotate_gray enhance_for_ocr predict angle_imgs r)))
                      ROTATIONS with
    | r0 :: rest =>
        (py_max_from (fun r => s_sc (probe_at rotate_gray enhance_for_ocr predict angle_imgs r)) r0 rest,
         "angle_sign_first")
    | [] =>
        let hs := fun r => hint_sum rotate_gray enhance_for_ocr predict has_depth_hint r depth_imgs
                             (hint_sum rotate_gray enhance_for_ocr predict has_temp_hint r temp_imgs zero) in
        let best_rot := py_max hs ROTATIONS in
        if gtb (hs best_rot) zero then (best_rot, "unit_hint")
        else (py_max (fun r => s_sc (probe_at rotate_gray enhance_for_ocr predict angle_imgs r)) ROTATIONS,
              "fallback_best_angle_score")
    end.
Proof.
  unfold choose_rotation. cbv zeta.
  set (probe := fold_left _ ROTATIONS ∅).
  set (hint_scores := fold_left _ ROTATIONS ∅).
  assert (Hp : forall r, In r ROTATIONS -> probe !!! r = probe_at rotate_gray enhance_for_ocr predict angle_imgs r).
  { intros r Hr. unfold probe.
    apply (fold_insert_total (fun r => probe_at rotate_gray enhance_for_ocr predict angle_imgs r)), Hr. }
  assert (Hh : forall r, In r ROTATIONS ->
             hint_scores !!! r
             = hint_sum rotate_gray enhance_for_ocr predict has_depth_hint r depth_imgs
                        (hint_sum rotate_gray enhance_for_ocr predict has_temp_hint r temp_imgs zero)).
  { intros r Hr. unfold hint_scores.
    apply (fold_insert_total
             (fun r => hint_sum rotate_gray enhance_for_ocr predict has_depth_hint r depth_imgs
                                (hint_sum rotate_gray enhance_for_ocr predict has_temp_hint r temp_imgs zero))), Hr. }
  rewrite (filter_ext_in _ (fun r => sign_first (s_txt (probe_at rotate_gray enhance_for_ocr predict angle_imgs r))))
    by (intros r Hr; now rewrite Hp).
  destruct (List.filter _ ROTATIONS) as [|r0 rest] eqn:Ef.
  - assert (Hb : py_max (fun r => hint_scores !!! r) ROTATIONS
                 = py_max (fun r => hint_sum rotate_gray enhance_for_ocr predict has_depth_hint r depth_imgs
                                      (hint_sum rotate_gray enhance_for_ocr predict has_temp_hint r temp_imgs zero))
                          ROTATIONS).
    { apply py_max_ext. intros x Hx. now apply Hh. }
    rewrite Hb.
    rewrite Hh by (apply py_max_in; discriminate).
    rewrite (py_max_ext (fun r => s_sc (probe !!! r))
               (fun r => s_sc (probe_at rotate_gray enhance_for_ocr predict angle_imgs r)))
      by (intros x Hx; now rewrite Hp).
    reflexivity.
  - f_equal. apply py_max_from_ext. intros x Hx. rewrite Hp; [reflexivity|].
    assert (Hin : In x (List.filter
                          (fun r => sign_first (s_txt (probe_at rotate_gray enhance_for_ocr predict angle_imgs r)))
                          ROTATIONS)) by now rewrite Ef.
    now apply filter_In in Hin as [? _].
Qed.

(** C4.  The selector returns a rotation of the fixed set and one of the
    three tags.  When the angle probe of some rotation has a sign prefix,
    the tag is [angle_sign_first] and the rotation returned is one whose
    probe has a sign prefix and whose raw confidence no rotation with a
    signed probe exceeds, whatever the confidences of the other rotations;
    when 180 is the only rotation whose probe has a sign prefix, the answer
    is (180, "angle_sign_first"). *)
Theorem choose_rotation_sign_first
    (angle_imgs temp_imgs depth_imgs : list (string * image)) :
  let signed := fun r => sign_first (s_txt (probe_at rotate_gray enhance_for_ocr predict angle_imgs r)) in
  let conf := fun r => s_sc (probe_at rotate_gray enhance_for_ocr predict angle_imgs r) in
  let '(rot, tag) := choose_rotation rotate_gray enhance_for_ocr predict angle_imgs temp_imgs depth_imgs in
  In rot ROTATIONS
  /\ In tag rotation_tags
  /\ ((exists r, In r ROTATIONS /\ signed r = true) ->
      tag = "angle_sign_first"
      /\ signed rot = true
      /\ forall r, In r ROTATIONS -> signed r = true ->
                   gtb (conf r) (conf rot) = false)
  /\ (signed 180%Z = true ->
      (forall r, In r ROTATIONS -> r <> 180%Z -> signed r = false) ->
      (rot, tag) = (180%Z, "angle_sign_first")).
Proof.
  intros signed conf. rewrite choose_rotation_unfold. fold signed conf.
  destruct (List.filter signed ROTATIONS) as [|r0 rest] eqn:Ef.
  - (* no signed probe: tiers 2 and 3 *)
    assert (Hnone : forall r, In r ROTATIONS -> signed r = false).
    { intros r Hr. destruct (signed r) eqn:E; [|reflexivity].
      assert (Hin : In r (List.filter signed ROTATIONS))
        by (apply filter_In; auto).
      rewrite Ef in Hin. destruct Hin. }
    cbv zeta.
    match goal with
    | |- context [if ?c then _ else _] => destruct c
    end.
    + split; [apply py_max_in; discriminate|]. split; [right; now left|]. split.
      * intros (r & Hr & Hs). rewrite (Hnone r Hr) in Hs. discriminate.
      * intros H180. rewrite Hnone in H180; [discriminate|].
        unfold ROTATIONS. simpl. auto.
    + split; [apply py_max_in; discriminate|]. split; [right; right; now left|]. split.
      * intros (r & Hr & Hs). rewrite (Hnone r Hr) in Hs. discriminate.
      * intros H180. rewrite Hnone in H180; [discriminate|].
        unfold ROTATIONS. simpl. auto.
  - (* tier 1 *)
    assert (Hsub : forall r, In r (r0 :: rest) <-> In r ROTATIONS /\ signed r = true).
    { intros r. rewrite <- Ef. apply filter_In. }
    pose proof (py_max_from_in conf rest r0) as Hin.
    apply Hsub in Hin as [Hrot Hsig].
    split; [exact Hrot|]. split; [now left|]. split.
    + intros _. split; [reflexivity|]. split; [exact Hsig|].
      intros r Hr Hs. apply py_max_from_upper. apply Hsub. auto.
    + intros H180 Hothers. f_equal.
      destruct (Z.eq_dec (py_max_from conf r0 rest) 180%Z) as [E | E]; [exact E|].
      rewrite (Hothers _ Hrot E) in Hsig. discriminate.
Qed.

End Selector.

Lemma choose_rotation_sign_first_witness :
  choose_rotation Script.rotate_gray Script.enhance_for_ocr Script.predict
    (Script.triple (Script.upside_down "+15" Script.conf_30 "SI" Script.conf_99))
    (Script.triple (Script.steady "21" Script.conf_90))
    (Script.triple (Script.steady "7" Script.conf_90))
  = (180%Z, "angle_sign_first").
Proof.
  pose proof (choose_rotation_sign_first
                Script.rotate_gray Script.enhance_for_ocr Script.predict
                (Script.triple (Script.upside_down "+15" Script.conf_30 "SI" Script.conf_99))
                (Script.triple (Script.steady "21" Script.conf_90))
                (Script.triple (Script.steady "7" Script.conf_90))) as H.
  cbv zeta in H.
  destruct (choose_rotation _ _ _ _ _ _) as [rot tag].
  destruct H as (_ & _ & _ & H). apply H.
  - vm_compute. reflexivity.
  - intros r Hr Hne.
    destruct Hr as [<- | [<- | [<- | [<- | []]]]];
      try (vm_compute; reflexivity); congruence.
Defined.

(** ** The field reader and the group evaluator *)

Section Evaluator.

Context {image : Type} `{!Inhabited image}.
Variable rotate_gray : image -> Z -> image.
Variable enhance_for_ocr : image -> image.
Variable predict : image -> option (option string * float).
Variable imread_any_gray : string -> option image.

Lemma choose_rotation_range (angle_imgs temp_imgs depth_imgs : list (string * image)) :
  In (fst (choose_rotation rotate_gray enhance_for_ocr predict
             angle_imgs temp_imgs depth_imgs)) ROTATIONS
  /\ In (snd (choose_rotation rotate_gray enhance_for_ocr predict
                angle_imgs temp_imgs depth_imgs)) rotation_tags.
Proof.
  rewrite choose_rotation_unfold.
  destruct (List.filter _ ROTATIONS) as [|r0 rest] eqn:Ef.
  - cbv zeta.
    match goal with
    | |- context [if ?c then _ else _] => destruct c
    end; cbn [fst snd].
    + split; [apply py_max_in; discriminate | right; now left].
    + split; [apply py_max_in; discriminate | right; right; now left].
  - cbn [fst snd]. split; [|now left].
    pose proof (py_max_from_in
                  (fun r => s_sc (probe_at rotate_gray enhance_for_ocr predict
                                           angle_imgs r)) rest r0) as Hin.
    rewrite <- Ef in Hin. now apply filter_In in Hin as [? _].
Qed.

Lemma field_score_no_reading : field_score no_reading = zero.
Proof. reflexivity. Qed.

(** The loop of the field reader keeps the better reading, from the initial
    one. *)
Lemma read_field_best_keep_best (imgs : list (string * image)) (rot : Z) :
  read_field_best rotate_gray enhance_for_ocr predict imgs rot
  = keep_best field_score
              (reading_of rotate_gray enhance_for_ocr predict imgs rot)
              source_variants no_reading.
Proof.
  unfold read_field_best, keep_best, source_variants, reading_of, field_score.
  cbn [fold_left].
  repeat match goal with
         | |- context [ocr_once ?p ?g] => destruct (ocr_once p g) as [? ?]
         end.
  reflexivity.
Qed.

Lemma src_reading_of (imgs : list (string * image)) (rot : Z) (s : string) :
  src (reading_of rotate_gray enhance_for_ocr predict imgs rot s) = s.
Proof. unfold reading_of. destruct (ocr_once _ _). reflexivity. Qed.

(** The components of an evaluation. *)
Lemma evaluate_components (imgs : gmap string image) :
  let e := evaluate rotate_gray enhance_for_ocr predict imgs in
  let best := fun fld =>
    read_field_best rotate_gray enhance_for_ocr predict
                    (field_images imgs fld) (ev_rot e) in
  (ev_rot e, ev_rot_reason e)
  = choose_rotation rotate_gray enhance_for_ocr predict
      (field_images imgs "angle") (field_images imgs "temp")
      (field_images imgs "depth")
  /\ ev_angle_best e = best "angle"
  /\ ev_temp_best e = best "temp"
  /\ ev_depth_best e = best "depth"
  /\ ev_angle_final e = normalize_angle (extract_num_str (txt (ev_angle_best e)))
  /\ ev_temp_final e = repair_temp (extract_num_str (txt (ev_temp_best e)))
  /\ ev_depth_final e
     = (if depth_valid (extract_num_str (txt (ev_depth_best e)))
        then extract_num_str (txt (ev_depth_best e)) else None)
  /\ ev_mistakes e
     = mistakes_of (ev_angle_final e) (ev_temp_final e) (ev_depth_final e)
                   (ev_angle_best e) (ev_temp_best e) (ev_depth_best e)
  /\ ev_status e = (if ev_mistakes e is [] then "OK" else "MISTAKE").
Proof.
  intros e best. subst e best. unfold evaluate.
  change [("sr", imgs !!! "angle_sr"); ("v7", imgs !!! "angle_v7");
          ("v8", imgs !!! "angle_v8")] with (field_images imgs "angle").
  change [("sr", imgs !!! "temp_sr"); ("v7", imgs !!! "temp_v7");
          ("v8", imgs !!! "temp_v8")] with (field_images imgs "temp").
  change [("sr", imgs !!! "depth_sr"); ("v7", imgs !!! "depth_v7");
          ("v8", imgs !!! "depth_v8")] with (field_images imgs "depth").
  destruct (choose_rotation _ _ _ _ _ _) as [rot reason].
  cbn [ev_rot ev_rot_reason ev_angle_best ev_temp_best ev_depth_best
       ev_angle_final ev_temp_final ev_depth_final ev_mistakes ev_status].
  repeat split; reflexivity.
Qed.

(** A group with its nine images decoded gets the record of its
    evaluation. *)
Lemma process_group_full (gid : string) (d : gmap string string)
    (imgs : gmap string image) :
  fully_evaluated imread_any_gray d imgs ->
  process_group rotate_gray enhance_for_ocr predict imread_any_gray gid d
  = record_of gid (evaluate rotate_gray enhance_for_ocr predict imgs).
Proof.
  intros [Hm Hr]. unfold process_group. now rewrite Hm, Hr.
Qed.


(** *** Reason codes *)

Lemma sublist_optional {A : Type} (b : bool) (x : A) (l1 l2 : list A) :
  l1 `sublist_of` l2 -> ((if b then [x] else []) ++ l1)%list `sublist_of` (x :: l2).
Proof. destruct b; simpl; [apply sublist_skip | apply sublist_cons]. Qed.

(** [mistakes_of], with its six tests as truth values. *)
Lemma mistakes_of_flags (af : option string) (tf : option float)
    (df : option string) (ab tb db : field_best) :
  mistakes_of af tf df ab tb db
  = ((if bool_decide (af = None) then ["angle_invalid"] else [])
     ++ (if bool_decide (tf = None) then ["temp_invalid"] else [])
     ++ (if bool_decide (df = None) then ["depth_invalid"] else [])
     ++ (if ltb (sc ab) SCORE_THRESHOLD then ["angle_low_score"] else [])
     ++ (if ltb (sc tb) SCORE_THRESHOLD then ["temp_low_score"] else [])
     ++ (if ltb (sc db) SCORE_THRESHOLD then ["depth_low_score"] else [])
     ++ [])%list.
Proof.
  unfold mistakes_of. rewrite app_nil_r. destruct af, tf, df; reflexivity.
Qed.

Lemma mistakes_of_sublist (af : option string) (tf : option float)
    (df : option string) (ab tb db : field_best) :
  mistakes_of af tf df ab tb db `sublist_of` reason_codes.
Proof.
  rewrite mistakes_of_flags. unfold reason_codes.
  repeat apply sublist_optional. constructor.
Qed.

Lemma reason_codes_NoDup : NoDup reason_codes.
Proof. apply (bool_decide_unpack _). vm_compute. reflexivity. Qed.

(** A code is recorded exactly when its test fires. *)
Lemma mistakes_of_in (af : option string) (tf : option float)
    (df : option string) (ab tb db : field_best) (c : string) :
  In c (mistakes_of af tf df ab tb db)
  <-> c = "angle_invalid" /\ af = None
      \/ c = "temp_invalid" /\ tf = None
      \/ c = "depth_invalid" /\ df = None
      \/ c = "angle_low_score" /\ ltb (sc ab) SCORE_THRESHOLD = true
      \/ c = "temp_low_score" /\ ltb (sc tb) SCORE_THRESHOLD = true
      \/ c = "depth_low_score" /\ ltb (sc db) SCORE_THRESHOLD = true.
Proof.
  unfold mistakes_of. rewrite !in_app_iff.
  assert (H1 : forall (A : Type) (o : option A) (x : string),
             In c (if o is None then [x] else []) <-> c = x /\ o = None).
  { intros A [a|] x; simpl; split; try tauto; try (intros [_ ?]; discriminate).
    intros [<- | []]; auto. intros [-> _]; auto. }
  assert (H2 : forall (b : bool) (x : string),
             In c (if b then [x] else []) <-> c = x /\ b = true).
  { intros [] x; simpl; split; try tauto; try (intros [_ ?]; discriminate).
    intros [<- | []]; auto. intros [-> _]; auto. }
  rewrite !H1, !H2. tauto.
Qed.

(** *** The claims on the evaluation of a group *)

(** C2.  For every group whose nine required images are present and
    decodable, the record carries the status and the reason codes of the
    evaluation; a reason code is recorded exactly when its own test fires
    ([angle_invalid], [temp_invalid], [depth_invalid] when the repaired value
    of the field is [None], and [angle_low_score], [temp_low_score],
    [depth_low_score] when the best score of the field is below 0.70), each
    test on its own; the status is OK exactly when no reason is recorded, and
    MISTAKE exactly when some reason is. *)
Theorem group_status_and_reasons (gid : string) (d : gmap string string)
    (imgs : gmap string image) :
  fully_evaluated imread_any_gray d imgs ->
  let r := process_group rotate_gray enhance_for_ocr predict imread_any_gray gid d in
  let e := evaluate rotate_gray enhance_for_ocr predict imgs in
  let angle_final := normalize_angle (extract_num_str (txt (ev_angle_best e))) in
  let temp_final := repair_temp (extract_num_str (txt (ev_temp_best e))) in
  let depth_final :=
    if depth_valid (extract_num_str (txt (ev_depth_best e)))
    then extract_num_str (txt (ev_depth_best e)) else None in
  dict_get r "status" = Some (JStr (ev_status e))
  /\ dict_get r "mistakes" = Some (JList (JStr <$> ev_mistakes e))
  /\ (forall c : string,
        In c (ev_mistakes e)
        <-> c = "angle_invalid" /\ angle_final = None
            \/ c = "temp_invalid" /\ temp_final = None
            \/ c = "depth_invalid" /\ depth_final = None
            \/ c = "angle_low_score"
               /\ ltb (sc (ev_angle_best e)) SCORE_THRESHOLD = true
            \/ c = "temp_low_score"
               /\ ltb (sc (ev_temp_best e)) SCORE_THRESHOLD = true
            \/ c = "depth_low_score"
               /\ ltb (sc (ev_depth_best e)) SCORE_THRESHOLD = true)
  /\ (ev_status e = "OK" <-> ev_mistakes e = [])
  /\ (ev_status e = "MISTAKE" <-> ev_mistakes e <> []).
Proof.
  intros Hfull r e angle_final temp_final depth_final.
  subst r. rewrite (process_group_full gid d imgs Hfull). fold e.
  destruct (evaluate_components imgs)
    as (_ & _ & _ & _ & Ha & Ht & Hd & Hm & Hs).
  fold e in Ha, Ht, Hd, Hm, Hs.
  split; [reflexivity|]. split; [reflexivity|]. split.
  - intros c. rewrite Hm, mistakes_of_in, Ha, Ht, Hd. reflexivity.
  - rewrite Hs. destruct (ev_mistakes e); split; split; congruence.
Qed.

(** C9.  In the record of every fully evaluated group the reason codes form
    a subsequence of [angle_invalid], [temp_invalid], [depth_invalid],
    [angle_low_score], [temp_low_score], [depth_low_score]: the invalid
    codes come before the low-score codes, each block in the order angle,
    temperature, depth, and no code appears twice. *)
Theorem mistakes_in_fixed_order (gid : string) (d : gmap string string)
    (imgs : gmap string image) :
  fully_evaluated imread_any_gray d imgs ->
  exists ms : list string,
    dict_get (process_group rotate_gray enhance_for_ocr predict
                            imread_any_gray gid d) "mistakes"
    = Some (JList (JStr <$> ms))
    /\ ms `sublist_of` ["angle_invalid"; "temp_invalid"; "depth_invalid";
                        "angle_low_score"; "temp_low_score"; "depth_low_score"]
    /\ NoDup ms.
Proof.
  intros Hfull. rewrite (process_group_full gid d imgs Hfull).
  exists (ev_mistakes (evaluate rotate_gray enhance_for_ocr predict imgs)).
  split; [reflexivity|].
  destruct (evaluate_components imgs) as (_ & _ & _ & _ & _ & _ & _ & Hm & _).
  rewrite Hm.
  pose proof (mistakes_of_sublist
                (ev_angle_final (evaluate rotate_gray enhance_for_ocr predict imgs))
                (ev_temp_final (evaluate rotate_gray enhance_for_ocr predict imgs))
                (ev_depth_final (evaluate rotate_gray enhance_for_ocr predict imgs))
                (ev_angle_best (evaluate rotate_gray enhance_for_ocr predict imgs))
                (ev_temp_best (evaluate rotate_gray enhance_for_ocr predict imgs))
                (ev_depth_best (evaluate rotate_gray enhance_for_ocr predict imgs)))
    as Hsub.
  split; [exact Hsub|].
  eapply sublist_NoDup; [apply reason_codes_NoDup | exact Hsub].
Qed.

(** C10.  For the depth field of every fully evaluated group: when the
    numeric substring [n] extracted from the best text passes [depth_valid],
    the value recorded is the string [n] itself, sign included; otherwise it
    is the sentinel.  The temperature recorded is the float that
    [repair_temp] returns.  The numeric string "-5" passes [depth_valid]. *)
Theorem depth_value_verbatim (gid : string) (d : gmap string string)
    (imgs : gmap string image) :
  fully_evaluated imread_any_gray d imgs ->
  let r := process_group rotate_gray enhance_for_ocr predict imread_any_gray gid d in
  let e := evaluate rotate_gray enhance_for_ocr predict imgs in
  let depth_num := extract_num_str (txt (ev_depth_best e)) in
  let temp_num := extract_num_str (txt (ev_temp_best e)) in
  (forall n, depth_num = Some n -> depth_valid (Some n) = true ->
             dict_get2 r "values" "depth" = Some (JStr n))
  /\ (depth_valid depth_num = false ->
      dict_get2 r "values" "depth" = Some (JStr "UNREADABLE"))
  /\ (forall v, repair_temp temp_num = Some v ->
                dict_get2 r "values" "temp" = Some (JFloat v))
  /\ depth_valid (Some "-5") = true.
Proof.
  intros Hfull r e depth_num temp_num.
  subst r. rewrite (process_group_full gid d imgs Hfull). fold e.
  destruct (evaluate_components imgs)
    as (_ & _ & _ & _ & _ & Ht & Hd & _ & _).
  fold e in Ht, Hd. fold depth_num in Hd. fold temp_num in Ht.
  change (dict_get2 (record_of gid e) "values" "depth")
    with (Some (or_unreadable JStr (ev_depth_final e))).
  change (dict_get2 (record_of gid e) "values" "temp")
    with (Some (or_unreadable JFloat (ev_temp_final e))).
  rewrite Hd, Ht.
  split; [|split; [|split; [|reflexivity]]].
  - intros n Hn Hv. rewrite Hn, Hv. reflexivity.
  - intros Hv. rewrite Hv. reflexivity.
  - intros v Hv. rewrite Hv. reflexivity.
Qed.

(** C6, amended.  For every field of every fully evaluated group, the
    source recorded for the field is that of the reading [b] the field
    reader returns at the rotation chosen.  When no source variant scores
    above 0.0 (the score of the empty reading the loop starts from), [b] is
    that initial reading, whose source is "none".  When some variant scores
    above 0.0, [b] is the reading of a variant of sr, v7, v8: its score is
    above 0.0, no variant before it in this order reaches its score, and no
    variant after it exceeds it. *)
Theorem source_entry_is_best_variant (gid : string) (d : gmap string string)
    (imgs : gmap string image) (fld : string) :
  fully_evaluated imread_any_gray d imgs ->
  In fld ["temp"; "depth"; "angle"] ->
  let r := process_group rotate_gray enhance_for_ocr predict imread_any_gray gid d in
  let e := evaluate rotate_gray enhance_for_ocr predict imgs in
  let cand := reading_of rotate_gray enhance_for_ocr predict
                         (field_images imgs fld) (ev_rot e) in
  let b := read_field_best rotate_gray enhance_for_ocr predict
                           (field_images imgs fld) (ev_rot e) in
  dict_get2 r "sources" fld = Some (JStr (src b))
  /\ ((forall s, In s source_variants -> gtb (field_score (cand s)) zero = false) ->
      b = no_reading /\ src b = "none")
  /\ ((exists s, In s source_variants /\ gtb (field_score (cand s)) zero = true) ->
      exists l1 s l2,
        source_variants = (l1 ++ s :: l2)%list
        /\ b = cand s /\ src b = s
        /\ gtb (field_score b) zero = true
        /\ (forall y, In y l1 -> leb (field_score b) (field_score (cand y)) = false)
        /\ (forall y, In y l2 -> gtb (field_score (cand y)) (field_score b) = false)).
Proof.
  intros Hfull Hfld r e cand b.
  subst r. rewrite (process_group_full gid d imgs Hfull). fold e.
  destruct (evaluate_components imgs) as (_ & Ha & Ht & Hd & _).
  fold e in Ha, Ht, Hd.
  split.
  { subst b. destruct Hfld as [<- | [<- | [<- | []]]].
    - rewrite <- Ht. reflexivity.
    - rewrite <- Hd. reflexivity.
    - rewrite <- Ha. reflexivity. }
  subst b. rewrite read_field_best_keep_best. fold cand.
  destruct (keep_best_spec field_score cand source_variants no_reading)
    as [[Hr Hl] | (l1 & s & l2 & El & Hr & Hlt & H1 & H2)].
  - split; [intros _; now rewrite Hr|].
    intros (s & Hs & Hgt). rewrite field_score_no_reading in Hl.
    rewrite (Hl s Hs) in Hgt. discriminate.
  - rewrite field_score_no_reading in Hlt. split.
    + intros Hnone. exfalso.
      assert (Hin : In s source_variants)
        by (rewrite El; apply in_or_app; right; now left).
      specialize (Hnone s Hin). unfold gtb in Hnone. congruence.
    + intros _. exists l1, s, l2. rewrite Hr.
      repeat split; auto. apply src_reading_of.
Qed.

(** C5, amended.  Every group gets one record.  The record of a fully
    evaluated group has exactly the fields [id], [status], [rotation],
    [rotation_reason], [values], [sources], [scores], [raw_text] and
    [mistakes], the four middle ones with exactly the keys [temp], [depth],
    [angle]; its values are validated values or the sentinel UNREADABLE, its
    scores floats, its sources and raw texts strings, its reason codes among
    the six of the evaluator.  The record of a group with missing images has
    exactly the fields [id], [status] (MISTAKE), [reason] ("missing_files")
    and [missing] (the absent keys); that of a group with an image that
    cannot be decoded has exactly [id], [status] (MISTAKE) and [reason]
    ("cant_read_image"). *)
Theorem record_schema (gid : string) (d : gmap string string) :
  let r := process_group rotate_gray enhance_for_ocr predict imread_any_gray gid d in
  (missing_keys d <> [] ->
   r = JDict [("id", JStr gid); ("status", JStr "MISTAKE");
              ("reason", JStr "missing_files");
              ("missing", JList (JStr <$> missing_keys d))])
  /\ (missing_keys d = [] ->
      read_images imread_any_gray d required ∅ = None ->
      r = JDict [("id", JStr gid); ("status", JStr "MISTAKE");
                 ("reason", JStr "cant_read_image")])
  /\ (forall imgs, fully_evaluated imread_any_gray d imgs -> full_schema gid r)
  /\ (forall groups : list (string * gmap string string),
        length (main_records rotate_gray enhance_for_ocr predict
                             imread_any_gray groups)
        = length groups).
Proof.
  intros r. split; [|split; [|split]].
  - intros Hm. subst r. unfold process_group.
    destruct (missing_keys d); [congruence | reflexivity].
  - intros Hm Hr. subst r. unfold process_group. now rewrite Hm, Hr.
  - intros imgs Hfull. subst r. rewrite (process_group_full gid d imgs Hfull).
    destruct (evaluate_components imgs)
      as (Hrot & _ & _ & _ & _ & _ & _ & Hm & Hs).
    set (e := evaluate rotate_gray enhance_for_ocr predict imgs) in *.
    pose proof (choose_rotation_range (field_images imgs "angle")
                  (field_images imgs "temp") (field_images imgs "depth")) as Hrange.
    rewrite <- Hrot in Hrange. cbn [fst snd] in Hrange.
    destruct Hrange as [Hr Ht].
    unfold full_schema.
    split; [reflexivity|]. split; [reflexivity|].
    split. { exists (ev_status e). split; [reflexivity|].
             rewrite Hs. destruct (ev_mistakes e); auto. }
    split. { exists (ev_rot e). split; [reflexivity | exact Hr]. }
    split. { exists (ev_rot_reason e). split; [reflexivity | exact Ht]. }
    split. { eexists. split; [reflexivity|]. unfold per_field.
             split; [reflexivity|].
             split; [eexists; split; [reflexivity|]|
                     split; eexists; (split; [reflexivity|])];
               unfold value_or_sentinel, or_unreadable;
               match goal with |- context [match ?o with _ => _ end] => destruct o end;
               simpl; auto. }
    split. { eexists. split; [reflexivity|]. unfold per_field.
             repeat split; try (eexists; split; [reflexivity | exact I]). }
    split. { eexists. split; [reflexivity|]. unfold per_field.
             repeat split; try (eexists; split; [reflexivity | exact I]). }
    split. { eexists. split; [reflexivity|]. unfold per_field.
             repeat split; try (eexists; split; [reflexivity | exact I]). }
    exists (ev_mistakes e). split; [reflexivity|].
    intros m Hin. rewrite Hm in Hin. apply mistakes_of_in in Hin.
    unfold reason_codes. simpl.
    destruct Hin as [[-> _] | [[-> _] | [[-> _] | [[-> _] | [[-> _] | [-> _]]]]]];
      tauto.
  - intros groups. unfold main_records, sorted_by.
    rewrite length_fmap.
    induction groups as [|x l IH]; [reflexivity|].
    cbn [fold_right length]. rewrite <- IH.
    generalize (fold_right (insert_by (fun x => lower (fst x))) [] l).
    intros l'. induction l' as [|y l' IH']; [reflexivity|].
    cbn [insert_by]. destruct (String.leb _ _); cbn [length]; [reflexivity|].
    now rewrite IH'.
Qed.

End Evaluator.

(** ** Concrete runs with scripted recognisers *)

Lemma clear_group_evaluated :
  fully_evaluated (Script.disk Script.clear_files) Script.full_group
                  (Script.decoded Script.clear_files Script.full_group).
Proof. split; vm_compute; reflexivity. Defined.

Lemma blank_group_evaluated :
  fully_evaluated (Script.disk Script.blank_files) Script.full_group
                  (Script.decoded Script.blank_files Script.full_group).
Proof. split; vm_compute; reflexivity. Defined.

(** On a gauge where nothing is recognised both reasons fire for each field,
    and the status is MISTAKE. *)
Lemma group_status_and_reasons_witness :
  exists e : evaluation,
    dict_get (Script.run Script.blank_files "g1" Script.full_group) "status"
    = Some (JStr (ev_status e))
    /\ ev_status e = "MISTAKE"
    /\ In "angle_invalid" (ev_mistakes e)
    /\ In "angle_low_score" (ev_mistakes e).
Proof.
  destruct (group_status_and_reasons
              Script.rotate_gray Script.enhance_for_ocr Script.predict
              (Script.disk Script.blank_files) "g1" Script.full_group _
              blank_group_evaluated) as (Hs & _ & Hin & _ & Hst).
  eexists. split; [exact Hs|].
  assert (Ha : forall c, In c ["angle_invalid"; "angle_low_score"] ->
                         In c (ev_mistakes
                                 (evaluate Script.rotate_gray Script.enhance_for_ocr
                                    Script.predict
                                    (Script.decoded Script.blank_files
                                                    Script.full_group)))).
  { intros c Hc. apply (proj2 (Hin c)).
    destruct Hc as [<- | [<- | []]].
    - left. split; [reflexivity | vm_compute; reflexivity].
    - right. right. right. left. split; [reflexivity | vm_compute; reflexivity]. }
  split; [|split; apply Ha; [now left | right; now left]].
  apply (proj2 Hst). intros E.
  pose proof (Ha "angle_invalid" ltac:(now left)) as Hc.
  rewrite E in Hc. exact Hc.
Defined.

Lemma mistakes_in_fixed_order_witness :
  exists ms : list string,
    dict_get (Script.run Script.blank_files "g1" Script.full_group) "mistakes"
    = Some (JList (JStr <$> ms))
    /\ ms `sublist_of` ["angle_invalid"; "temp_invalid"; "depth_invalid";
                        "angle_low_score"; "temp_low_score"; "depth_low_score"]
    /\ NoDup ms.
Proof.
  exact (mistakes_in_fixed_order
           Script.rotate_gray Script.enhance_for_ocr Script.predict
           (Script.disk Script.blank_files) "g1" Script.full_group _
           blank_group_evaluated).
Defined.

(** A depth read as "-5 m" is recorded as the string "-5". *)
Lemma depth_value_verbatim_witness :
  dict_get2 (Script.run Script.clear_files "g1" Script.full_group)
            "values" "depth"
  = Some (JStr "-5").
Proof.
  destruct (depth_value_verbatim
              Script.rotate_gray Script.enhance_for_ocr Script.predict
              (Script.disk Script.clear_files) "g1" Script.full_group _
              clear_group_evaluated) as (H & _).
  apply H; vm_compute; reflexivity.
Defined.

(** C6, as stated, fails: on a gauge where nothing is recognised the source
    recorded for the temperature is none of sr, v7, v8. *)
Lemma source_entry_outside_variants :
  fully_evaluated (Script.disk Script.blank_files) Script.full_group
                  (Script.decoded Script.blank_files Script.full_group)
  /\ ~ exists v, In v ["sr"; "v7"; "v8"]
                 /\ dict_get2 (Script.run Script.blank_files "g1" Script.full_group)
                              "sources" "temp"
                    = Some (JStr v).
Proof.
  split; [exact blank_group_evaluated|].
  assert (E : dict_get2 (Script.run Script.blank_files "g1" Script.full_group)
                        "sources" "temp" = Some (JStr "none"))
    by (vm_compute; reflexivity).
  rewrite E. intros (v & [<- | [<- | [<- | []]]] & H); discriminate.
Qed.

Lemma source_entry_is_best_variant_witness :
  exists b : field_best,
    dict_get2 (Script.run Script.clear_files "g1" Script.full_group)
              "sources" "temp"
    = Some (JStr (src b))
    /\ src b = "sr".
Proof.
  destruct (source_entry_is_best_variant
              Script.rotate_gray Script.enhance_for_ocr Script.predict
              (Script.disk Script.clear_files) "g1" Script.full_group _ "temp"
              clear_group_evaluated ltac:(now left)) as (Hs & _).
  eexists. split; [exact Hs|]. vm_compute. reflexivity.
Defined.

(** C5, as stated, fails: the record of a group that misses a file does not
    have the fields of the schema. *)
Lemma record_of_missing_group_differs :
  dict_keys (Script.run Script.clear_files "g1" Script.group_without_depth_v8)
  <> ["id"; "status"; "rotation"; "rotation_reason"; "values"; "sources";
      "scores"; "raw_text"; "mistakes"].
Proof. vm_compute. discriminate. Qed.

Lemma record_schema_witness :
  full_schema "g1" (Script.run Script.clear_files "g1" Script.full_group)
  /\ Script.run Script.clear_files "g1" Script.group_without_depth_v8
     = JDict [("id", JStr "g1"); ("status", JStr "MISTAKE");
              ("reason", JStr "missing_files");
              ("missing", JList [JStr "depth_v8"])].
Proof.
  destruct (record_schema
              Script.rotate_gray Script.enhance_for_ocr Script.predict
              (Script.disk Script.clear_files) "g1" Script.full_group)
    as (_ & _ & H & _).
  split; [exact (H _ clear_group_evaluated)|].
  destruct (record_schema
              Script.rotate_gray Script.enhance_for_ocr Script.predict
              (Script.disk Script.clear_files) "g1" Script.group_without_depth_v8)
    as (Hm & _).
  unfold Script.run. rewrite Hm; [vm_compute; reflexivity|].
  vm_compute. discriminate.
Defined.

(* ===================================================================== *)
(** * Part III: further properties of the code                             *)
(* ===================================================================== *)

(** ** The text normaliser *)

Lemma filter_chars_idem (p : ascii -> bool) (s : string) :
  filter_chars p (filter_chars p s) = filter_chars p s.
Proof.
  induction s as [|c s IH]; [reflexivity|].
  cbn [filter_chars]. destruct (p c) eqn:E; [|exact IH].
  cbn [filter_chars]. now rewrite E, IH.
Qed.

Lemma no_digit_remove_spaces (s : string) :
  no_digit (remove_spaces s) = no_digit s.
Proof.
  unfold no_digit, remove_spaces.
  induction s as [|c s IH]; [reflexivity|].
  cbn [filter_chars all_chars].
  destruct (Ascii.eqb c " ") eqn:E; cbn [negb all_chars].
  - apply Ascii.eqb_eq in E. subst c. rewrite IH. reflexivity.
  - now rewrite IH.
Qed.

Lemma match_unsigned_no_digit (c : ascii) (s : string) :
  is_decimal c = false -> match_unsigned (String c s) = None.
Proof. intros H. unfold match_unsigned. cbn [span_digits]. now rewrite H. Qed.

Lemma match_unsigned_digit (c : ascii) (s : string) :
  is_decimal c = true -> exists m r, match_unsigned (String c s) = Some (m, r).
Proof.
  intros H. unfold match_unsigned. cbn [span_digits]. rewrite H.
  destruct (span_digits s) as [ds rest]. cbn [is_empty].
  destruct rest as [|d r]; [eauto|].
  destruct (Ascii.eqb d ".") eqn:Ed.
  - apply Ascii.eqb_eq in Ed. subst d.
    destruct (span_digits r) as [fs r']. destruct (is_empty fs); eauto.
  - assert (Hd : d <> "."%char) by (intros ->; discriminate).
    destruct d as [[] [] [] [] [] [] [] []];
      try (exfalso; apply Hd; reflexivity); eauto.
Qed.

Lemma match_number_digit (c : ascii) (s : string) :
  is_decimal c = true -> exists m, match_number (String c s) = Some m.
Proof.
  intros H. unfold match_number. rewrite (decimal_not_sign _ H).
  destruct (match_unsigned_digit c s H) as (m & r & ->). simpl. eauto.
Qed.

Lemma search_number_none (s : string) :
  search_number s = None <-> no_digit s = true.
Proof.
  unfold no_digit. induction s as [|c s IH]; [split; reflexivity|].
  cbn [search_number all_chars].
  destruct (is_decimal c) eqn:Ec; cbn [negb andb].
  - destruct (match_number_digit c s Ec) as (m & ->). split; discriminate.
  - assert (Hm : match_number (String c s) = None
                 \/ exists d s' m r, s = String d s' /\ is_sign c = true
                                     /\ match_unsigned s = Some (m, r)).
    { unfold match_number. rewrite (match_unsigned_no_digit c s Ec).
      destruct (is_sign c); [|now left].
      destruct (match_unsigned s) as [[m r]|] eqn:E; [|now left].
      right. destruct s as [|d s']; [discriminate|]. eauto 10. }
    destruct Hm as [-> | (d & s' & m & r & -> & Hc & Hu)]; [exact IH|].
    assert (Hd : is_decimal d = true).
    { destruct (is_decimal d) eqn:E; [reflexivity|].
      rewrite (match_unsigned_no_digit d s' E) in Hu. discriminate. }
    unfold match_number at 1. rewrite Hc, Hu.
    cbn [all_chars]. rewrite Hd. split; discriminate.
Qed.

(** X1.  [extract_num_str] finds no number exactly in the texts without a
    decimal digit (the empty text among them). *)
Theorem extract_num_str_none_iff (txt : string) :
  extract_num_str txt = None <-> no_digit txt = true.
Proof.
  unfold extract_num_str. destruct txt as [|c t]; [split; reflexivity|].
  cbn [is_empty]. rewrite search_number_none. now rewrite no_digit_remove_spaces.
Qed.

Lemma match_unsigned_form_self (m : string) :
  unsigned_form m -> match_unsigned m = Some (m, "").
Proof.
  intros (ds & fs & Hne & Hd & Hf & H). unfold match_unsigned.
  apply is_empty_false in Hne.
  destruct H as [[-> ->] | [Hfe ->]].
  - rewrite (span_digits_all _ Hd), Hne. reflexivity.
  - rewrite span_digits_app by (simpl; auto). rewrite Hne. simpl_str.
    rewrite (span_digits_all _ Hf).
    apply is_empty_false in Hfe. now rewrite Hfe.
Qed.

Lemma match_number_form_self (n : string) :
  number_form n -> match_number n = Some n.
Proof.
  intros [Hm | (c & m & Hc & Hm & ->)].
  - destruct (unsigned_form_chars _ Hm) as [_ (c & m' & E & Hc)]. subst n.
    unfold match_number. rewrite (decimal_not_sign _ Hc).
    now rewrite (match_unsigned_form_self _ Hm).
  - unfold match_number. now rewrite Hc, (match_unsigned_form_self _ Hm).
Qed.

(** X2.  A numeric string that [extract_num_str] returns is extracted
    whole from itself: extracting twice changes nothing. *)
Theorem extract_num_str_idempotent (txt n : string) :
  extract_num_str txt = Some n -> extract_num_str n = Some n.
Proof.
  intros H. apply extract_num_str_form in H.
  destruct (number_form_no_space _ H) as (_ & Hsp & Hne).
  unfold extract_num_str. apply is_empty_false in Hne. rewrite Hne.
  unfold remove_spaces. rewrite (filter_chars_id _ _ Hsp).
  destruct n as [|c n']; [discriminate|].
  cbn [search_number]. now rewrite (match_number_form_self _ H).
Qed.

Lemma extract_num_str_idempotent_witness :
  extract_num_str "t = -12.5 C (7)" = Some "-12.5"
  /\ extract_num_str "-12.5" = Some "-12.5".
Proof.
  split; [reflexivity|].
  exact (extract_num_str_idempotent "t = -12.5 C (7)" "-12.5" eq_refl).
Defined.

(** X3.  A text with a sign prefix always yields a numeric string, and that
    string starts with the sign of the text. *)
Theorem sign_first_extracts_signed (txt : string) :
  sign_first txt = true ->
  exists c m, extract_num_str txt = Some (String c m)
              /\ is_sign c = true
              /\ startswith (String c "") (remove_spaces txt) = true.
Proof.
  unfold sign_first, match_sign_digit, extract_num_str.
  destruct txt as [|a t]; [discriminate|]. cbn [is_empty].
  destruct (remove_spaces (String a t)) as [|c [|d r]]; try discriminate.
  intros H. apply andb_true_iff in H as [Hc Hd].
  destruct (match_unsigned_digit d r Hd) as (m & r' & Hm).
  exists c, m. cbn [search_number]. unfold match_number. rewrite Hc, Hm.
  repeat split; auto. cbn [startswith]. now rewrite Ascii.eqb_refl.
Qed.

Lemma sign_first_extracts_signed_witness :
  sign_first "- 4 5.0 deg" = true
  /\ exists c m, extract_num_str "- 4 5.0 deg" = Some (String c m)
                 /\ is_sign c = true
                 /\ startswith (String c "") (remove_spaces "- 4 5.0 deg") = true.
Proof.
  split; [reflexivity|]. exact (sign_first_extracts_signed "- 4 5.0 deg" eq_refl).
Defined.

Lemma lower_char_is_m (c : ascii) :
  Ascii.eqb "m" (lower_char c) = Ascii.eqb "m" c || Ascii.eqb "M" c.
Proof. by_cases_on_char c. Qed.

(** X4.  [has_depth_hint] answers true exactly on the texts that contain
    the letter m, small or capital. *)
Theorem has_depth_hint_iff (txt : string) :
  has_depth_hint txt = contains "m" txt || contains "M" txt.
Proof.
  unfold has_depth_hint. induction txt as [|c t IH]; [reflexivity|].
  cbn [lower contains startswith]. rewrite IH, lower_char_is_m.
  destruct (Ascii.eqb "m" c), (Ascii.eqb "M" c), (contains "m" t),
    (contains "M" t); reflexivity.
Qed.

(** ** The field repair rules *)

Lemma startswith_sign_head (c : ascii) (s : string) :
  startswith_sign (String c s) = is_sign c.
Proof.
  unfold startswith_sign, is_sign. cbn [startswith].
  now rewrite !andb_true_r, (Ascii.eqb_sym "+" c), (Ascii.eqb_sym "-" c).
Qed.



(** X6.  On a numeric string [extract_num_str] returns, the shape test of
    [depth_valid] never fails: the string is valid exactly when its integer
    part, the sign apart, has at most three digits. *)
Theorem depth_valid_numeric (txt n : string) :
  extract_num_str txt = Some n ->
  depth_valid (Some n)
  = (String.length (before_dot (if startswith_sign n then drop1 n else n)) <=? 3)%nat.
Proof.
  intros H. apply extract_num_str_form in H.
  destruct (number_form_no_space _ H) as (Hsp & _ & Hne).
  unfold depth_valid. apply is_empty_false in Hne. rewrite Hne.
  rewrite (strip_id _ Hsp).
  assert (Hm : unsigned_form (if startswith_sign n then drop1 n else n)).
  { destruct H as [Hm | (c & m & Hc & Hm & ->)].
    - destruct (unsigned_form_chars _ Hm) as [_ (c & m' & E & Hc)].
      rewrite E at 1. rewrite startswith_sign_head, (decimal_not_sign _ Hc).
      exact Hm.
    - now rewrite startswith_sign_head, Hc. }
  set (m := if startswith_sign n then drop1 n else n) in *.
  assert (Hbl : remove_spaces m = m).
  { assert (Hn : number_form m) by now left.
    destruct (number_form_no_space _ Hn) as (_ & Hb & _).
    unfold remove_spaces. now rewrite (filter_chars_id _ _ Hb). }
  rewrite Hbl. unfold fullmatch_unsigned.
  rewrite (match_unsigned_form_self _ Hm). reflexivity.
Qed.

Lemma depth_valid_numeric_witness :
  extract_num_str "depth -1234.5m" = Some "-1234.5"
  /\ depth_valid (Some "-1234.5") = false.
Proof.
  split; [reflexivity|].
  exact (depth_valid_numeric "depth -1234.5m" "-1234.5" eq_refl).
Defined.

(** *** The range of [repair_temp] *)

Lemma binary_round_aux_sign (sx : bool) (mx ex : Z) (lx : location) :
  match binary_round_aux prec emax sx mx ex lx with
  | S754_zero s | S754_infinity s | S754_finite s _ _ => s = sx
  | S754_nan => True
  end.
Proof.
  unfold binary_round_aux.
  destruct (shr_fexp prec emax mx ex lx) as [mrs e'].
  destruct (shr_fexp prec emax _ e' loc_Exact) as [mrs' e''].
  destruct (shr_m mrs'); [reflexivity | | exact I].
  destruct (Z.leb e'' (emax - prec)); reflexivity.
Qed.

Lemma decimal_sign (neg : bool) (n : Z) (k : nat) :
  (0 <= n)%Z ->
  match decimal neg n k with
  | S754_zero s | S754_infinity s | S754_finite s _ _ => s = neg
  | S754_nan => True
  end.
Proof.
  intros Hn. unfold decimal. destruct n as [|p|p]; [reflexivity| |lia].
  unfold SFdiv.
  destruct (SFdiv_core_binary prec emax (Z.pos p) 0 _ 0) as [[mz ez] lz].
  pose proof (binary_round_aux_sign (xorb neg false) mz ez lz) as H.
  rewrite xorb_false_r in *. exact H.
Qed.

Lemma of_int_sign (n : Z) :
  (0 <= n)%Z ->
  match of_int n with
  | S754_zero s | S754_infinity s | S754_finite s _ _ => s = false
  | S754_nan => True
  end.
Proof.
  intros Hn. unfold of_int, binary_normalize.
  destruct n as [|p|p]; [reflexivity| |lia].
  unfold binary_round.
  destruct (shl_align p 0 _) as [mz ez].
  apply binary_round_aux_sign.
Qed.

Lemma sign_clear_of_leb (v b : float) :
  match v with
  | S754_zero s | S754_infinity s | S754_finite s _ _ => s = false
  | S754_nan => True
  end ->
  leb v b = true -> sign_clear v.
Proof. destruct v; simpl; auto. discriminate. Qed.

Lemma int_nonneg (s : string) : all_chars is_decimal s = true -> (0 <= int s)%Z.
Proof.
  intros H. pose proof (int_acc_bounds s 0 H ltac:(lia)) as Hb.
  unfold int. lia.
Qed.

(** [float] of a string of digits and dots is a decimal without sign. *)
Lemma py_float_digits_dots (s : string) (v : float) :
  all_chars (fun c => is_decimal c || Ascii.eqb c ".") s = true ->
  py_float s = Some v ->
  exists n k, (0 <= n)%Z /\ v = decimal false n k.
Proof.
  intros Hs. unfold py_float.
  assert (Hsp : all_chars (fun c => negb (isspace c)) s = true).
  { eapply all_chars_impl; [|exact Hs]. intros c.
    destruct c as [[] [] [] [] [] [] [] []]; vm_compute; congruence. }
  rewrite (strip_id _ Hsp).
  assert (Hsg : startswith_sign s = false /\ startswith "-" s = false).
  { destruct s as [|c s']; [split; reflexivity|].
    cbn [all_chars] in Hs. apply andb_true_iff in Hs as [Hc _].
    assert (Hn : is_sign c = false).
    { destruct c as [[] [] [] [] [] [] [] []]; vm_compute in Hc |- *; congruence. }
    pose proof (startswith_sign_head c s') as E. rewrite Hn in E.
    split; [exact E|]. unfold startswith_sign in E.
    now apply orb_false_iff in E as [_ ?]. }
  destruct Hsg as [-> ->].
  destruct (span_digits s) as [ip rest] eqn:E.
  apply span_digits_inv in E as (-> & Hip & _).
  destruct rest as [|c r].
  - destruct (is_empty ip); [discriminate|].
    intros H; inversion H. exists (int ip), 0%nat. split; [|reflexivity].
    now apply int_nonneg.
  - destruct (Ascii.eqb c ".") eqn:Ec.
    + apply Ascii.eqb_eq in Ec. subst c.
      destruct (span_digits r) as [fp rest'] eqn:E'.
      apply span_digits_inv in E' as (-> & Hfp & _).
      destruct (is_empty rest' && negb (is_empty ip && is_empty fp));
        [|discriminate].
      intros H; inversion H. exists (int (ip ++ fp)), (String.length fp).
      split; [|reflexivity]. apply int_nonneg. now rewrite all_chars_app, Hip, Hfp.
    + assert (Hc : c <> "."%char) by (intros ->; discriminate).
      destruct c as [[] [] [] [] [] [] [] []];
        try (exfalso; apply Hc; reflexivity); discriminate.
Qed.

Lemma digits_of_no_dot (s : string) :
  all_chars (fun c => is_decimal c || Ascii.eqb c ".") s = true ->
  contains "." s = false -> all_chars is_decimal s = true.
Proof.
  induction s as [|c s IH]; [reflexivity|].
  cbn [all_chars contains startswith]. intros H Hd.
  apply andb_true_iff in H as [Hc Hs].
  apply orb_false_iff in Hd as [Hd1 Hd2]. rewrite andb_true_r in Hd1.
  rewrite Ascii.eqb_sym in Hd1. rewrite Hd1, orb_false_r in Hc.
  now rewrite Hc, IH.
Qed.

Lemma filter_chars_all (p : ascii -> bool) (s : string) :
  all_chars p (filter_chars p s) = true.
Proof.
  induction s as [|c s IH]; [reflexivity|].
  cbn [filter_chars]. destruct (p c) eqn:E; [|exact IH].
  cbn [all_chars]. now rewrite E, IH.
Qed.

(** X7.  Whatever its argument, a temperature that [repair_temp] returns is
    at most 80.0 and is not negative (nor a NaN). *)
Theorem repair_temp_range (num_str : option string) (v : float) :
  repair_temp num_str = Some v ->
  leb v TEMP_MAX = true /\ sign_clear v.
Proof.
  unfold repair_temp. destruct num_str as [n|]; [|discriminate].
  destruct (is_empty n); [discriminate|].
  set (s := filter_chars _ (remove_spaces _)).
  assert (Hs : all_chars (fun c => is_decimal c || Ascii.eqb c ".") s = true)
    by apply filter_chars_all.
  destruct (is_empty s); [discriminate|].
  destruct (contains "." s) eqn:Edot.
  - destruct (py_float s) as [w|] eqn:Ew; [|discriminate].
    destruct (leb w TEMP_MAX) eqn:El; [|discriminate].
    intros H; inversion H; subst w. split; [exact El|].
    destruct (py_float_digits_dots s v Hs Ew) as (k & j & Hk & ->).
    eapply sign_clear_of_leb; [apply decimal_sign, Hk | exact El].
  - pose proof (digits_of_no_dot s Hs Edot) as Hd.
    destruct (negb (isdigit s)); [discriminate|].
    destruct (String.length s <=? 2)%nat eqn:Elen.
    + destruct (leb (of_int (int s)) TEMP_MAX) eqn:El; [|discriminate].
      intros H; inversion H; subst v. split; [exact El|].
      eapply sign_clear_of_leb; [apply of_int_sign, int_nonneg, Hd | exact El].
    + set (valid := List.filter (fun c => leb c TEMP_MAX) (temp_candidates s)).
      assert (Hvalid : forall x, In x valid -> leb x TEMP_MAX = true /\ sign_clear x).
      { intros x Hx. apply filter_In in Hx as [Hx El]. split; [exact El|].
        eapply sign_clear_of_leb; [|exact El].
        unfold temp_candidates in Hx. apply in_app_or in Hx as [Hx | Hx].
        - destruct (3 <=? String.length s)%nat; [|destruct Hx].
          destruct Hx as [<- | [<- | []]];
            apply of_int_sign, int_two_digits, Hd.
        - destruct (String.length s =? 3)%nat; [|destruct Hx].
          destruct (py_float _) as [w|] eqn:Ew; [|destruct Hx].
          destruct Hx as [<- | []].
          assert (Hc : all_chars (fun c => is_decimal c || Ascii.eqb c ".")
                                 (first2 s ++ "." ++ substring 2 1 s) = true).
          { rewrite all_chars_app. unfold first2. simpl_str.
            rewrite !(all_chars_substring _ s) by exact Hs. reflexivity. }
          destruct (py_float_digits_dots _ w Hc Ew) as (k & j & Hk & ->).
          apply decimal_sign, Hk. }
      destruct valid as [|v0 rest] eqn:Ev; [discriminate|].
      destruct (List.filter has_fraction (v0 :: rest)) as [|d l] eqn:Ed.
      * intros H; inversion H. apply Hvalid. apply py_min_from_in.
      * intros H; inversion H; subst d. apply Hvalid.
        assert (Hin : In v (List.filter has_fraction (v0 :: rest)))
          by (rewrite Ed; left; reflexivity).
        exact (proj1 (proj1 (filter_In has_fraction v (v0 :: rest)) Hin)).
Qed.

Lemma repair_temp_range_witness :
  repair_temp (Some "-7.5") = Some (decimal false 75 1)
  /\ leb (decimal false 75 1) TEMP_MAX = true /\ sign_clear (decimal false 75 1).
Proof.
  split; [reflexivity|].
  exact (repair_temp_range (Some "-7.5") (decimal false 75 1) eq_refl).
Defined.

Lemma leb_two_digits (z : Z) :
  (0 <= z <= 99)%Z -> leb (of_int z) TEMP_MAX = (z <=? 80)%Z.
Proof.
  intros Hz.
  assert (H : forallb (fun n => Bool.eqb (leb (of_int (Z.of_nat n)) TEMP_MAX)
                                         (Z.of_nat n <=? 80)%Z)
                      (seq 0 100) = true) by (vm_compute; reflexivity).
  rewrite forallb_forall in H.
  assert (Hin : In (Z.to_nat z) (seq 0 100)) by (apply in_seq; lia).
  specialize (H (Z.to_nat z) Hin). rewrite Z2Nat.id in H by lia.
  apply Bool.eqb_prop in H. exact H.
Qed.

(** X8.  On a string of one or two decimal digits [repair_temp] accepts
    exactly the integers up to 80, and returns the integer read, as a
    float. *)
Theorem repair_temp_short_digits (s : string) :
  all_chars is_decimal s = true -> s <> "" -> (String.length s <= 2)%nat ->
  repair_temp (Some s)
  = if (int s <=? 80)%Z then Some (of_int (int s)) else None.
Proof.
  intros Hd Hne Hlen. unfold repair_temp.
  apply is_empty_false in Hne.
  assert (Hsp : all_chars (fun c => negb (isspace c)) s = true).
  { eapply all_chars_impl; [|exact Hd]. intros c Hc.
    now rewrite (decimal_not_space _ Hc). }
  assert (Hsg : startswith_sign s = false).
  { destruct s as [|c s']; [reflexivity|]. simpl in Hd.
    apply andb_true_iff in Hd as [Hc _].
    now rewrite startswith_sign_head, (decimal_not_sign _ Hc). }
  assert (Hbl : all_chars (fun c => negb (Ascii.eqb c " ")) s = true).
  { eapply all_chars_impl; [|exact Hd]. intros c Hc.
    now rewrite (decimal_not_blank _ Hc). }
  assert (Hkeep : all_chars (fun c => is_decimal c || Ascii.eqb c ".") s = true).
  { eapply all_chars_impl; [|exact Hd]. intros c ->. reflexivity. }
  assert (Hdig : isdigit s = true).
  { unfold isdigit. rewrite Hne. simpl.
    eapply all_chars_impl; [|exact Hd]. apply decimal_isdigit. }
  assert (Hshort : (String.length s <=? 2)%nat = true) by (apply Nat.leb_le; lia).
  rewrite Hne, (strip_id _ Hsp), Hsg.
  unfold remove_spaces. rewrite (filter_chars_id _ _ Hbl), (filter_chars_id _ _ Hkeep).
  rewrite Hne, (contains_dot_digits _ Hd), Hdig, Hshort. cbn [negb].
  rewrite leb_two_digits; [reflexivity|].
  pose proof (int_acc_bounds s 0 Hd ltac:(lia)) as Hb. fold (int s) in Hb.
  assert (10 ^ Z.of_nat (String.length s) <= 10 ^ 2)%Z
    by (apply Z.pow_le_mono_r; lia).
  lia.
Qed.

Lemma repair_temp_short_digits_witness :
  repair_temp (Some "81") = None /\ repair_temp (Some "80") = Some (of_int 80).
Proof.
  split.
  - exact (repair_temp_short_digits "81" eq_refl ltac:(discriminate)
             ltac:(simpl; lia)).
  - exact (repair_temp_short_digits "80" eq_refl ltac:(discriminate)
             ltac:(simpl; lia)).
Defined.

(** X9.  The sign of a temperature is discarded: a signed numeric string
    is repaired like the same string without its sign. *)
Theorem repair_temp_ignores_sign (txt : string) (c : ascii) (m : string) :
  extract_num_str txt = Some (String c m) -> is_sign c = true ->
  repair_temp (Some (String c m)) = repair_temp (Some m).
Proof.
  intros H Hc. apply extract_num_str_form in H.
  destruct H as [Hu | (c' & m' & _ & Hm & E)].
  { destruct (unsigned_form_chars _ Hu) as [_ (d & r & E & Hd)].
    inversion E; subst d. rewrite (decimal_not_sign _ Hd) in Hc. discriminate. }
  inversion E; subst c' m'. clear E.
  assert (Hn : number_form (String c m)) by (right; eauto).
  assert (Hn' : number_form m) by now left.
  destruct (number_form_no_space _ Hn) as (Hsp & _ & _).
  destruct (number_form_no_space _ Hn') as (Hsp' & _ & Hne').
  destruct (unsigned_form_chars _ Hm) as [_ (d & r & E & Hd)].
  unfold repair_temp. cbn [is_empty].
  apply is_empty_false in Hne'. rewrite Hne'.
  rewrite (strip_id _ Hsp), (strip_id _ Hsp'), startswith_sign_head, Hc.
  cbn [drop1].
  assert (Hsg : startswith_sign m = false).
  { rewrite E, startswith_sign_head. now apply decimal_not_sign. }
  now rewrite Hsg.
Qed.

Lemma repair_temp_ignores_sign_witness :
  extract_num_str "T=-12C" = Some "-12"
  /\ repair_temp (Some "-12") = repair_temp (Some "12").
Proof.
  split; [reflexivity|].
  exact (repair_temp_ignores_sign "T=-12C" "-" "12" eq_refl eq_refl).
Defined.

(** ** The candidate scorer *)

(** X10.  The score of a reading is its confidence plus one of five
    bonuses: 0.0, 0.05, 0.05 + 0.05, 0.05 + 0.08 or 0.05 + 0.05 + 0.08 (a
    sign prefix always comes with a number, so the bonus 0.08 never stands
    alone); spaces in the text do not change the score. *)
Theorem score_key_bonus (t : string) (score : float) :
  In (score_key t score)
     (add score
        <$> [zero;
             add zero (decimal false 5 2);
             add (add zero (decimal false 5 2)) (decimal false 5 2);
             add (add zero (decimal false 5 2)) (decimal false 8 2);
             add (add (add zero (decimal false 5 2)) (decimal false 5 2))
                 (decimal false 8 2)])
  /\ score_key (remove_spaces t) score = score_key t score.
Proof.
  split.
  - unfold score_key.
    generalize (decimal false 5 2) (decimal false 8 2). intros d5 d8.
    generalize dependent zero. intros z.
    destruct (sign_first (remove_spaces t)) eqn:Es.
    + destruct (sign_first_extracts_signed _ Es) as (c & m & -> & _).
      destruct (contains "." (remove_spaces t)); cbn [fmap list_fmap In]; auto 10.
    + destruct (extract_num_str (remove_spaces t)),
        (contains "." (remove_spaces t)); cbn [fmap list_fmap In]; auto 10.
  - unfold score_key, remove_spaces. now rewrite filter_chars_idem.
Qed.

(** ** The selector, the readers and the evaluator *)

Section EngineMore.

Context {image : Type} `{!Inhabited image}.
Variable rotate_gray : image -> Z -> image.
Variable enhance_for_ocr : image -> image.
Variable predict : image -> option (option string * float).
Variable imread_any_gray : string -> option image.

Lemma rstrip_idem (s : string) : rstrip (rstrip s) = rstrip s.
Proof.
  induction s as [|c s IH]; [reflexivity|].
  cbn [rstrip]. destruct (rstrip s) as [|d r] eqn:E.
  - destruct (isspace c) eqn:Ec; [reflexivity|].
    cbn [rstrip]. now rewrite Ec.
  - cbn [rstrip] in *. fold (rstrip (String d r)). rewrite IH. reflexivity.
Qed.

Lemma lstrip_head (s : string) :
  match lstrip s with
  | EmptyString => True
  | String c _ => isspace c = false
  end.
Proof.
  induction s as [|c s IH]; [exact I|].
  cbn [lstrip]. destruct (isspace c) eqn:E; [exact IH | exact E].
Qed.

Lemma strip_idem (s : string) : strip (strip s) = strip s.
Proof.
  unfold strip. pose proof (lstrip_head s) as H.
  destruct (lstrip s) as [|c u]; [reflexivity|].
  assert (Hl : lstrip (rstrip (String c u)) = rstrip (String c u)).
  { cbn [rstrip]. destruct (rstrip u).
    - rewrite H. cbn [lstrip]. now rewrite H.
    - cbn [lstrip]. now rewrite H. }
  rewrite Hl. apply rstrip_idem.
Qed.

(** X11.  The text [ocr_once] returns has no white space at either end:
    stripping it again changes nothing; when reading the answer of the model
    fails, the text is empty and the confidence 0.0. *)
Theorem ocr_once_stripped (gray : image) :
  strip (fst (ocr_once predict gray)) = fst (ocr_once predict gray)
  /\ (predict gray = None -> ocr_once predict gray = ("", zero)).
Proof.
  unfold ocr_once. destruct (predict gray) as [[t score]|]; cbn [fst].
  - split; [apply strip_idem | discriminate].
  - split; reflexivity.
Qed.

(** The loop of [best_ocr_text] keeps the better reading. *)
Lemma best_ocr_text_keep_best (gray_img : image) :
  best_ocr_text rotate_gray enhance_for_ocr predict gray_img
  = keep_best (fun b => score_key (rb_txt b) (rb_sc b))
              (rot_reading rotate_gray enhance_for_ocr predict gray_img)
              ROTATIONS (RotBest "" zero 0).
Proof.
  unfold best_ocr_text, keep_best, ROTATIONS, rot_reading.
  cbn [fold_left].
  repeat match goal with
         | |- context [ocr_once ?p ?g] => destruct (ocr_once p g) as [? ?]
         end.
  reflexivity.
Qed.

Lemma rb_rot_reading (gray_img : image) (rot : Z) :
  rb_rot (rot_reading rotate_gray enhance_for_ocr predict gray_img rot) = rot.
Proof. unfold rot_reading. destruct (ocr_once _ _). reflexivity. Qed.

(** X12.  [best_ocr_text] returns a rotation of the fixed set.  Either no
    rotation scores above 0.0 and the answer is the empty reading at
    rotation 0, or the answer is the reading of a rotation whose score is
    above 0.0, that no earlier rotation reaches and no later one exceeds. *)
Theorem best_ocr_text_spec (gray_img : image) :
  let score := fun b => score_key (rb_txt b) (rb_sc b) in
  let cand := rot_reading rotate_gray enhance_for_ocr predict gray_img in
  let b := best_ocr_text rotate_gray enhance_for_ocr predict gray_img in
  In (rb_rot b) ROTATIONS
  /\ ((b = RotBest "" zero 0
       /\ forall r, In r ROTATIONS -> gtb (score (cand r)) zero = false)
      \/ exists l1 r l2,
           ROTATIONS = (l1 ++ r :: l2)%list
           /\ b = cand r /\ rb_rot b = r
           /\ gtb (score b) zero = true
           /\ (forall y, In y l1 -> leb (score b) (score (cand y)) = false)
           /\ (forall y, In y l2 -> gtb (score (cand y)) (score b) = false)).
Proof.
  intros score cand b. subst b. rewrite best_ocr_text_keep_best.
  fold score cand.
  destruct (keep_best_spec score cand ROTATIONS (RotBest "" zero 0))
    as [[Hr Hl] | (l1 & r & l2 & El & Hr & Hlt & H1 & H2)].
  - rewrite Hr. split; [now left|]. left. split; [reflexivity | exact Hl].
  - rewrite Hr. subst cand. rewrite rb_rot_reading. split.
    + rewrite El. apply in_or_app. right. now left.
    + right. exists l1, r, l2. repeat split; auto.
Qed.

(** *** Tiers 2 and 3 of the selector *)

(** X13.  When the probe of no rotation has a sign prefix, the selector
    answers [unit_hint] only with a rotation whose hint sum is above 0.0 and
    that no rotation's hint sum exceeds; otherwise it answers
    [fallback_best_angle_score] with a rotation whose probe confidence no
    rotation exceeds, and then the hint sum of the best-hinted rotation is
    not above 0.0. *)
Theorem choose_rotation_without_sign
    (angle_imgs temp_imgs depth_imgs : list (string * image)) :
  let conf := fun r => s_sc (probe_at rotate_gray enhance_for_ocr predict
                                      angle_imgs r) in
  let hs := fun r =>
    hint_sum rotate_gray enhance_for_ocr predict has_depth_hint r depth_imgs
      (hint_sum rotate_gray enhance_for_ocr predict has_temp_hint r temp_imgs
                zero) in
  (forall r, In r ROTATIONS ->
             sign_first (s_txt (probe_at rotate_gray enhance_for_ocr predict
                                         angle_imgs r)) = false) ->
  let '(rot, tag) := choose_rotation rotate_gray enhance_for_ocr predict
                                     angle_imgs temp_imgs depth_imgs in
  (tag = "unit_hint"
   /\ gtb (hs rot) zero = true
   /\ forall r, In r ROTATIONS -> gtb (hs r) (hs rot) = false)
  \/ (tag = "fallback_best_angle_score"
      /\ (forall r, In r ROTATIONS -> gtb (conf r) (conf rot) = false)
      /\ exists best, In best ROTATIONS /\ gtb (hs best) zero = false
                      /\ forall r, In r ROTATIONS -> gtb (hs r) (hs best) = false).
Proof.
  intros conf hs Hnone. rewrite choose_rotation_unfold.
  destruct (List.filter _ ROTATIONS) as [|r0 rest] eqn:Ef.
  - cbv zeta. fold hs conf.
    destruct (gtb (hs (py_max hs ROTATIONS)) zero) eqn:Eg.
    + left. split; [reflexivity|]. split; [exact Eg|].
      intros r Hr. now apply py_max_from_upper.
    + right. split; [reflexivity|]. split.
      * intros r Hr. now apply py_max_from_upper.
      * exists (py_max hs ROTATIONS). split; [apply py_max_in; discriminate|].
        split; [exact Eg|]. intros r Hr. now apply py_max_from_upper.
  - exfalso.
    assert (Hin : In r0 (List.filter
                           (fun r => sign_first
                                       (s_txt (probe_at rotate_gray enhance_for_ocr
                                                        predict angle_imgs r)))
                           ROTATIONS)) by (rewrite Ef; now left).
    apply filter_In in Hin as [Hr Hs]. rewrite (Hnone r0 Hr) in Hs. discriminate.
Qed.

Lemma hint_sum_no_hint (hint : string -> bool) (rot : Z)
    (imgs : list (string * image)) (acc : float) :
  (forall k img, In (k, img) imgs ->
     hint (fst (ocr_once predict (enhance_for_ocr (rotate_gray img rot)))) = false) ->
  hint_sum rotate_gray enhance_for_ocr predict hint rot imgs acc = acc.
Proof.
  unfold hint_sum. revert acc.
  induction imgs as [|[k img] imgs IH]; intros acc H; [reflexivity|].
  cbn [fold_left].
  pose proof (H k img ltac:(now left)) as Hk.
  destruct (ocr_once predict _) as [t c]. cbn [fst] in Hk. rewrite Hk.
  apply IH. intros k' img' Hin. apply (H k' img'). now right.
Qed.

(** X14.  When no temperature sample shows a temperature hint and no depth
    sample shows a depth hint, at any rotation, the selector never answers
    [unit_hint]. *)
Theorem choose_rotation_no_hint
    (angle_imgs temp_imgs depth_imgs : list (string * image)) :
  (forall rot k img, In (k, img) temp_imgs ->
     has_temp_hint (fst (ocr_once predict (enhance_for_ocr (rotate_gray img rot))))
     = false) ->
  (forall rot k img, In (k, img) depth_imgs ->
     has_depth_hint (fst (ocr_once predict (enhance_for_ocr (rotate_gray img rot))))
     = false) ->
  snd (choose_rotation rotate_gray enhance_for_ocr predict
                       angle_imgs temp_imgs depth_imgs) <> "unit_hint".
Proof.
  intros Ht Hd. rewrite choose_rotation_unfold.
  destruct (List.filter _ ROTATIONS) as [|r0 rest]; [|discriminate].
  cbv beta zeta.
  rewrite (hint_sum_no_hint has_temp_hint _ temp_imgs zero) by (apply Ht).
  rewrite (hint_sum_no_hint has_depth_hint _ depth_imgs zero) by (apply Hd).
  discriminate.
Qed.

(** *** A recogniser that fails on every image *)

Lemma ocr_once_failed (gray : image) :
  predict gray = None -> ocr_once predict gray = ("", zero).
Proof. intros H. unfold ocr_once. now rewrite H. Qed.

Lemma probe_at_failed (imgs : list (string * image)) (rot : Z) :
  (forall g, predict g = None) ->
  probe_at rotate_gray enhance_for_ocr predict imgs rot = Sample "" zero.
Proof.
  intros H. unfold probe_at.
  induction imgs as [|[k img] imgs IH]; [reflexivity|].
  cbn [fold_left]. rewrite ocr_once_failed by apply H. exact IH.
Qed.

Lemma hint_sum_failed (hint : string -> bool) (rot : Z)
    (imgs : list (string * image)) (acc : float) :
  (forall g, predict g = None) -> hint "" = false ->
  hint_sum rotate_gray enhance_for_ocr predict hint rot imgs acc = acc.
Proof.
  intros H Hh. apply hint_sum_no_hint. intros k img _.
  now rewrite ocr_once_failed by apply H.
Qed.

Lemma read_field_best_failed (imgs : list (string * image)) (rot : Z) :
  (forall g, predict g = None) ->
  read_field_best rotate_gray enhance_for_ocr predict imgs rot = no_reading.
Proof.
  intros H. unfold read_field_best. cbn [fold_left].
  rewrite !ocr_once_failed by apply H. reflexivity.
Qed.

(** X15.  When the recogniser fails on every image, every decoded group is
    evaluated to the same outcome: rotation 0 by the fallback tier, the
    source "none" with an empty text and confidence 0.0 for the three
    fields, no value, the six reason codes and the status MISTAKE. *)
Theorem evaluate_when_recogniser_fails (imgs : gmap string image) :
  (forall g, predict g = None) ->
  evaluate rotate_gray enhance_for_ocr predict imgs
  = Evaluation 0 "fallback_best_angle_score" no_reading no_reading no_reading
               None None None reason_codes "MISTAKE".
Proof.
  intros H. unfold evaluate.
  rewrite choose_rotation_unfold.
  assert (Hf : List.filter
                 (fun r => sign_first
                             (s_txt (probe_at rotate_gray enhance_for_ocr predict
                                       [("sr", imgs !!! "angle_sr");
                                        ("v7", imgs !!! "angle_v7");
                                        ("v8", imgs !!! "angle_v8")] r)))
                 ROTATIONS = []).
  { rewrite (filter_ext_in _ (fun _ => false)); [apply filter_false|].
    intros r _. now rewrite probe_at_failed. }
  rewrite Hf. cbv beta zeta.
  assert (Hhs : forall r,
             hint_sum rotate_gray enhance_for_ocr predict has_depth_hint r
               [("sr", imgs !!! "depth_sr"); ("v7", imgs !!! "depth_v7");
                ("v8", imgs !!! "depth_v8")]
               (hint_sum rotate_gray enhance_for_ocr predict has_temp_hint r
                  [("sr", imgs !!! "temp_sr"); ("v7", imgs !!! "temp_v7");
                   ("v8", imgs !!! "temp_v8")] zero) = zero).
  { intros r. now rewrite !hint_sum_failed. }
  rewrite Hhs.
  change (gtb zero zero) with false. cbv iota.
  rewrite (py_max_ext _ (fun _ => zero))
    by (intros r _; now rewrite probe_at_failed).
  change (py_max (fun _ : Z => zero) ROTATIONS) with 0%Z.
  rewrite !read_field_best_failed by exact H.
  reflexivity.
Qed.

(** X16.  In every evaluation with status OK, each field has a source among
    sr, v7, v8 (never "none"), a value, and a confidence that is not below
    0.70. *)
Theorem ok_status_fields (imgs : gmap string image) :
  let e := evaluate rotate_gray enhance_for_ocr predict imgs in
  ev_status e = "OK" ->
  (In (src (ev_angle_best e)) source_variants
   /\ In (src (ev_temp_best e)) source_variants
   /\ In (src (ev_depth_best e)) source_variants)
  /\ (ev_angle_final e <> None /\ ev_temp_final e <> None
      /\ ev_depth_final e <> None)
  /\ (ltb (sc (ev_angle_best e)) SCORE_THRESHOLD = false
      /\ ltb (sc (ev_temp_best e)) SCORE_THRESHOLD = false
      /\ ltb (sc (ev_depth_best e)) SCORE_THRESHOLD = false).
Proof.
  intros e Hok.
  destruct (evaluate_components rotate_gray enhance_for_ocr predict imgs)
    as (_ & Ha & Ht & Hd & _ & _ & _ & Hm & Hs).
  fold e in Ha, Ht, Hd, Hm, Hs.
  assert (Hnil : ev_mistakes e = []).
  { rewrite Hs in Hok. destruct (ev_mistakes e); [reflexivity | discriminate]. }
  assert (Hno : forall c, ~ In c (mistakes_of (ev_angle_final e) (ev_temp_final e)
                                     (ev_depth_final e) (ev_angle_best e)
                                     (ev_temp_best e) (ev_depth_best e))).
  { intros c. rewrite <- Hm, Hnil. intros []. }
  assert (Hlow : ltb (sc (ev_angle_best e)) SCORE_THRESHOLD = false
                 /\ ltb (sc (ev_temp_best e)) SCORE_THRESHOLD = false
                 /\ ltb (sc (ev_depth_best e)) SCORE_THRESHOLD = false).
  { repeat split;
      match goal with |- ?b = false => destruct b eqn:E; [|reflexivity] end;
      exfalso.
    - apply (Hno "angle_low_score"), (mistakes_of_in (fun _ => @None image)). tauto.
    - apply (Hno "temp_low_score"), (mistakes_of_in (fun _ => @None image)). tauto.
    - apply (Hno "depth_low_score"), (mistakes_of_in (fun _ => @None image)). tauto. }
  assert (Hsrc : forall fimgs rot,
             ltb (sc (read_field_best rotate_gray enhance_for_ocr predict
                                      fimgs rot)) SCORE_THRESHOLD = false ->
             In (src (read_field_best rotate_gray enhance_for_ocr predict
                                      fimgs rot)) source_variants).
  { intros fimgs rot. rewrite read_field_best_keep_best.
    destruct (keep_best_in field_score
                (reading_of rotate_gray enhance_for_ocr predict fimgs rot)
                source_variants no_reading) as [-> | (s & Hin & ->)].
    - discriminate.
    - intros _. now rewrite src_reading_of. }
  destruct Hlow as (La & Lt & Ld).
  split; [|split; [|auto]].
  - rewrite Ha, Ht, Hd in *. auto.
  - repeat split; intros E.
    + apply (Hno "angle_invalid"), (mistakes_of_in (fun _ => @None image)). tauto.
    + apply (Hno "temp_invalid"), (mistakes_of_in (fun _ => @None image)). tauto.
    + apply (Hno "depth_invalid"), (mistakes_of_in (fun _ => @None image)). tauto.
Qed.

End EngineMore.

Lemma choose_rotation_without_sign_witness :
  snd (choose_rotation Script.rotate_gray Script.enhance_for_ocr Script.predict
         (Script.triple (Script.steady "12" Script.conf_90))
         (Script.triple (Script.steady "37 C" Script.conf_90))
         (Script.triple (Script.steady "7 m" Script.conf_90)))
  <> "angle_sign_first".
Proof.
  assert (Hnone : forall r, In r ROTATIONS ->
            sign_first (s_txt (probe_at Script.rotate_gray Script.enhance_for_ocr
                                 Script.predict
                                 (Script.triple (Script.steady "12" Script.conf_90))
                                 r)) = false).
  { intros r [<- | [<- | [<- | [<- | []]]]]; vm_compute; reflexivity. }
  pose proof (choose_rotation_without_sign
                Script.rotate_gray Script.enhance_for_ocr Script.predict
                (Script.triple (Script.steady "12" Script.conf_90))
                (Script.triple (Script.steady "37 C" Script.conf_90))
                (Script.triple (Script.steady "7 m" Script.conf_90)) Hnone) as H.
  destruct (choose_rotation _ _ _ _ _ _) as [rot tag]. cbn [snd].
  destruct H as [[-> _] | [-> _]]; discriminate.
Defined.

Lemma choose_rotation_no_hint_witness :
  snd (choose_rotation Script.rotate_gray Script.enhance_for_ocr Script.predict
         (Script.triple (Script.steady "12" Script.conf_90))
         (Script.triple (Script.steady "21" Script.conf_90))
         (Script.triple (Script.steady "7" Script.conf_90)))
  <> "unit_hint".
Proof.
  apply choose_rotation_no_hint.
  - intros rot k img [H | [H | [H | []]]]; inversion H; reflexivity.
  - intros rot k img [H | [H | [H | []]]]; inversion H; reflexivity.
Defined.

Lemma evaluate_when_recogniser_fails_witness :
  evaluate (fun (g : unit) (_ : Z) => g) (fun g => g) (fun _ => None) ∅
  = Evaluation 0 "fallback_best_angle_score" no_reading no_reading no_reading
               None None None reason_codes "MISTAKE".
Proof.
  apply evaluate_when_recogniser_fails. intros g. reflexivity.
Defined.

Lemma ok_status_fields_witness :
  In (src (ev_depth_best
             (evaluate Script.rotate_gray Script.enhance_for_ocr Script.predict
                       (Script.decoded Script.clear_files Script.full_group))))
     source_variants.
Proof.
  assert (Hok : ev_status
                  (evaluate Script.rotate_gray Script.enhance_for_ocr Script.predict
                            (Script.decoded Script.clear_files Script.full_group))
                = "OK") by (vm_compute; reflexivity).
  exact (proj2 (proj2 (proj1 (ok_status_fields
                                Script.rotate_gray Script.enhance_for_ocr
                                Script.predict _ Hok)))).
Defined.

(** ** The scan of the folder *)

Lemma lower_char_idem (c : ascii) : lower_char (lower_char c) = lower_char c.
Proof. by_cases_on_char c. Qed.

Lemma lower_idem (s : string) : lower (lower s) = lower s.
Proof.
  induction s as [|c s IH]; [reflexivity|].
  cbn [lower]. now rewrite lower_char_idem, IH.
Qed.

(** X17.  [detect_field_and_type] answers with a field and a source together
    or with neither; a field it names is one of angle, temp, depth, a source
    one of sr, v7, v8, so that the key built from them is one of the nine
    required keys; and the answer does not depend on the case of the file
    name. *)
Theorem detect_field_and_type_sound (fn : string) :
  (detect_field_and_type fn = (None, None)
   \/ exists field typ,
        detect_field_and_type fn = (Some field, Some typ)
        /\ In field ["angle"; "temp"; "depth"]
        /\ In typ source_variants
        /\ In (field ++ "_" ++ typ) required)
  /\ detect_field_and_type (lower fn) = detect_field_and_type fn.
Proof.
  split; [|unfold detect_field_and_type; now rewrite lower_idem].
  unfold detect_field_and_type.
  destruct (startswith "angle" (lower fn));
    [|destruct (startswith "temp" (lower fn));
      [|destruct (startswith "depth" (lower fn)); [|now left]]];
    (destruct (contains "_sr" (lower fn));
     [|destruct (contains "_v7" (lower fn));
       [|destruct (contains "_v8" (lower fn)); [|now left]]]);
    right; eexists _, _; (split; [reflexivity|]);
    unfold source_variants, required; simpl; tauto.
Qed.

Section ScanProps.

Variable basename : string -> string.
Variable path_join : string -> string -> string.

Lemma set_item_ids (groups : list (string * gmap string string))
    (gid key path : string) :
  group_ids (set_item groups gid key path)
  = if bool_decide (gid ∈ group_ids groups) then group_ids groups
    else (group_ids groups ++ [gid])%list.
Proof.
  unfold group_ids. induction groups as [|[g d] rest IH].
  - reflexivity.
  - cbn [set_item]. destruct (String.eqb g gid) eqn:E.
    + apply String.eqb_eq in E. subst g. rewrite !fmap_cons. cbn [fst].
      rewrite bool_decide_eq_true_2 by apply list_elem_of_here. reflexivity.
    + apply String.eqb_neq in E. rewrite !fmap_cons. cbn [fst].
      rewrite IH. case_bool_decide as Hin.
      * rewrite bool_decide_eq_true_2 by now apply list_elem_of_further.
        reflexivity.
      * rewrite bool_decide_eq_false_2; [reflexivity|].
        intros H. apply elem_of_cons in H as [H | H]; congruence.
Qed.

Lemma set_item_in (groups : list (string * gmap string string))
    (gid key path g : string) (d : gmap string string) :
  In (g, d) (set_item groups gid key path) ->
  In (g, d) groups
  \/ g = gid /\ (d = {[key := path]}
                 \/ exists d0, In (gid, d0) groups /\ d = <[key := path]> d0).
Proof.
  induction groups as [|[g' d'] rest IH]; cbn [set_item].
  - intros [H | []]. inversion H; subst. right. auto.
  - destruct (String.eqb g' gid) eqn:E.
    + apply String.eqb_eq in E. subst g'.
      intros [H | H]; [|left; now right].
      inversion H; subst. right. split; [reflexivity|]. right.
      exists d'. split; [now left | reflexivity].
    + intros [H | H]; [left; now left|].
      destruct (IH H) as [? | (-> & [-> | (d0 & Hd0 & ->)])].
      * left. now right.
      * right. auto.
      * right. split; [reflexivity|]. right. exists d0. split; [now right | reflexivity].
Qed.

Lemma set_item_invariant (groups : list (string * gmap string string))
    (gid key path : string) :
  In key required -> scan_invariant groups ->
  scan_invariant (set_item groups gid key path).
Proof.
  intros Hk [Hnd Hall]. split.
  - rewrite set_item_ids. case_bool_decide as Hin; [exact Hnd|].
    apply NoDup_app. split; [exact Hnd|]. split.
    + intros x Hx Hx'. apply list_elem_of_singleton in Hx'. subst x.
      contradiction.
    + apply NoDup_singleton.
  - intros g d Hin. apply set_item_in in Hin
      as [Hin | (-> & [-> | (d0 & Hd0 & ->)])].
    + exact (Hall _ _ Hin).
    + split.
      * apply map_non_empty_singleton.
      * intros k [v Hv]. apply lookup_singleton_Some in Hv as [<- _]. exact Hk.
    + destruct (Hall _ _ Hd0) as [_ Hkeys]. split.
      * apply insert_non_empty.
      * intros k [v Hv]. destruct (decide (key = k)) as [<- | Hne]; [exact Hk|].
        rewrite lookup_insert_ne in Hv by exact Hne. apply Hkeys. eauto.
Qed.

Lemma scan_files_invariant (root : string) (files : list string)
    (groups : list (string * gmap string string)) :
  scan_invariant groups ->
  scan_invariant (scan_files basename path_join root files groups).
Proof.
  unfold scan_files. revert groups.
  induction files as [|fn files IH]; intros groups H; [exact H|].
  cbn [fold_left]. apply IH.
  destruct (negb (endswith_any EXTS (lower fn))); [exact H|].
  destruct (proj1 (detect_field_and_type_sound fn))
    as [-> | (field & typ & -> & _ & _ & Hk)]; [exact H|].
  destruct (is_empty field); [exact H|].
  now apply set_item_invariant.
Qed.

(** X18.  Whatever the folder holds, the groups [scan_groups] builds have
    distinct identifiers, none of them is empty, and every key of a group is
    one of the nine required keys. *)
Theorem scan_groups_invariant (walk : list (string * list string)) :
  NoDup (group_ids (scan_groups basename path_join walk))
  /\ forall gid d, In (gid, d) (scan_groups basename path_join walk) ->
       d <> ∅ /\ forall k, is_Some (d !! k) -> In k required.
Proof.
  unfold scan_groups.
  assert (H0 : scan_invariant []).
  { split; [constructor | intros ? ? []]. }
  revert H0. generalize (@nil (string * gmap string string)).
  induction walk as [|[root files] walk IH]; intros groups H; [exact H|].
  cbn [fold_left]. apply IH. now apply scan_files_invariant.
Qed.

End ScanProps.

(** ** The loop of [main] over the groups *)

Lemma insert_by_perm {A : Type} (key : A -> string) (x : A) (l : list A) :
  insert_by key x l ≡ₚ x :: l.
Proof.
  induction l as [|y l IH]; [reflexivity|].
  cbn [insert_by]. destruct (String.leb (key x) (key y)); [reflexivity|].
  rewrite IH. apply Permutation_swap.
Qed.

Lemma sorted_by_perm {A : Type} (key : A -> string) (l : list A) :
  sorted_by key l ≡ₚ l.
Proof.
  unfold sorted_by. induction l as [|x l IH]; [reflexivity|].
  cbn [fold_right]. rewrite insert_by_perm. now rewrite IH.
Qed.

Lemma insert_by_sorted {A : Type} (key : A -> string) (x : A) (l : list A) :
  Sorted (fun a b => String.leb (key a) (key b) = true) l ->
  Sorted (fun a b => String.leb (key a) (key b) = true) (insert_by key x l).
Proof.
  induction l as [|y l IH]; intros Hs.
  - repeat constructor.
  - cbn [insert_by]. destruct (String.leb (key x) (key y)) eqn:E.
    + constructor; [exact Hs|]. constructor. exact E.
    + apply Sorted_inv in Hs as [Hs Hhd]. constructor; [now apply IH|].
      assert (Hyx : String.leb (key y) (key x) = true).
      { destruct (String.leb_total (key x) (key y)) as [H | H];
          [congruence | exact H]. }
      destruct l as [|z l]; cbn [insert_by].
      * constructor. exact Hyx.
      * destruct (String.leb (key x) (key z)); constructor;
          [exact Hyx|]. now apply HdRel_inv in Hhd.
Qed.

Lemma sorted_by_sorted {A : Type} (key : A -> string) (l : list A) :
  Sorted (fun a b => String.leb (key a) (key b) = true) (sorted_by key l).
Proof.
  unfold sorted_by. induction l as [|x l IH]; [constructor|].
  cbn [fold_right]. now apply insert_by_sorted.
Qed.

Lemma Sorted_fmap {A B : Type} (f : A -> B) (R : B -> B -> Prop) (l : list A) :
  Sorted (fun a b => R (f a) (f b)) l -> Sorted R (f <$> l).
Proof.
  induction l as [|x l IH]; intros Hs; [constructor|].
  apply Sorted_inv in Hs as [Hs Hhd]. rewrite fmap_cons.
  constructor; [now apply IH|].
  destruct l as [|y l]; [constructor|].
  rewrite fmap_cons. constructor. now apply HdRel_inv in Hhd.
Qed.

Section MainProps.

Context {image : Type} `{!Inhabited image}.
Variable rotate_gray : image -> Z -> image.
Variable enhance_for_ocr : image -> image.
Variable predict : image -> option (option string * float).
Variable imread_any_gray : string -> option image.

Lemma record_id_process_group (gid : string) (d : gmap string string) :
  record_id (process_group rotate_gray enhance_for_ocr predict
                           imread_any_gray gid d) = gid.
Proof.
  unfold process_group. destruct (missing_keys d); [|reflexivity].
  destruct (read_images imread_any_gray d required ∅); reflexivity.
Qed.

Lemma status_is_ok_process_group (gid : string) (d : gmap string string) :
  status_is_ok (process_group rotate_gray enhance_for_ocr predict
                              imread_any_gray gid d)
  = group_is_ok rotate_gray enhance_for_ocr predict imread_any_gray d.
Proof.
  unfold process_group, group_is_ok. destruct (missing_keys d); [|reflexivity].
  destruct (read_images imread_any_gray d required ∅); reflexivity.
Qed.

(** X19.  The records [main] writes carry the identifiers of the groups,
    each group once, in ascending order of the lowercased identifier. *)
Theorem main_records_order (groups : list (string * gmap string string)) :
  let ids := record_id <$> main_records rotate_gray enhance_for_ocr predict
                                        imread_any_gray groups in
  ids ≡ₚ group_ids groups
  /\ Sorted (fun a b => String.leb (lower a) (lower b) = true) ids.
Proof.
  intros ids.
  assert (E : ids = fst <$> sorted_by (fun x => lower (fst x)) groups).
  { subst ids. unfold main_records. rewrite <- list_fmap_compose.
    apply list_fmap_ext. intros i [gid d] _. cbn.
    apply record_id_process_group. }
  rewrite E. split.
  - unfold group_ids. now rewrite sorted_by_perm.
  - apply Sorted_fmap.
    apply (sorted_by_sorted (fun x : string * gmap string string => lower (fst x))).
Qed.

Lemma count_fold (l : list (string * gmap string string)) (ok bad : nat) :
  let '(ok', bad') :=
    fold_left
      (fun '(ok, bad) '(gid, d) =>
         if group_is_ok rotate_gray enhance_for_ocr predict imread_any_gray d
         then (S ok, bad) else (ok, S bad))
      l (ok, bad) in
  ok' = (ok + length (List.filter
                        (fun x => group_is_ok rotate_gray enhance_for_ocr predict
                                              imread_any_gray (snd x)) l))%nat
  /\ (ok' + bad' = ok + bad + length l)%nat.
Proof.
  revert ok bad. induction l as [|[gid d] l IH]; intros ok bad.
  - cbn. lia.
  - cbn [fold_left List.filter snd].
    destruct (group_is_ok _ _ _ _ d).
    + specialize (IH (S ok) bad). destruct (fold_left _ l _) as [ok' bad'].
      cbn [length]. lia.
    + specialize (IH ok (S bad)). destruct (fold_left _ l _) as [ok' bad'].
      cbn [length]. lia.
Qed.

(** X20.  At the end of [main] the counters [ok] and [bad] add up to the
    number of groups, and [ok] is the number of records written with the
    status OK. *)
Theorem main_counts_total (groups : list (string * gmap string string)) :
  let '(ok, bad) := main_counts rotate_gray enhance_for_ocr predict
                                imread_any_gray groups in
  (ok + bad = length groups)%nat
  /\ ok = length (List.filter status_is_ok
                    (main_records rotate_gray enhance_for_ocr predict
                                  imread_any_gray groups)).
Proof.
  unfold main_counts, main_records.
  pose proof (count_fold (sorted_by (fun x => lower (fst x)) groups) 0 0) as H.
  destruct (fold_left _ _ (0%nat, 0%nat)) as [ok bad].
  destruct H as [Hok Hsum]. split.
  - rewrite Hsum. cbn. now rewrite (sorted_by_perm _ groups).
  - rewrite Hok. cbn [Nat.add].
    generalize (sorted_by (fun x : string * gmap string string => lower (fst x)) groups).
    intros l. induction l as [|[gid d] l IH]; [reflexivity|].
    rewrite fmap_cons. cbn [List.filter snd].
    rewrite status_is_ok_process_group.
    destruct (group_is_ok _ _ _ _ d); cbn [length]; now rewrite IH.
Qed.

End MainProps.

(** X21.  A group the scan builds holds at least one of the required
    images: the list of its missing keys never names all nine. *)
Theorem scanned_group_not_all_missing (basename : string -> string)
    (path_join : string -> string -> string)
    (walk : list (string * list string)) (gid : string)
    (d : gmap string string) :
  In (gid, d) (scan_groups basename path_join walk) ->
  exists k, In k required /\ ~ In k (missing_keys d).
Proof.
  intros Hin.
  destruct (proj2 (scan_groups_invariant basename path_join walk) gid d Hin)
    as [Hne Hkeys].
  apply map_choose in Hne as (k & v & Hk).
  exists k. split; [apply Hkeys; eauto|].
  unfold missing_keys. intros H. apply filter_In in H as [_ H].
  apply bool_decide_eq_true_1 in H. congruence.
Qed.

Lemma scanned_group_not_all_missing_witness :
  exists k, In k required
            /\ ~ In k (missing_keys
                         {["depth_v8" := "run7/depth_v8.bmp"]}).
Proof.
  apply (scanned_group_not_all_missing
           (fun r => r) (fun a b => a ++ "/" ++ b)
           [("run7", ["depth_v8.bmp"; "notes.txt"])] "run7").
  vm_compute. left. reflexivity.
Defined.

Section ScanProvenance.

Variable basename : string -> string.
Variable path_join : string -> string -> string.
Variable P : string -> string -> string -> Prop.

Lemma set_item_stored (groups : list (string * gmap string string))
    (gid key path : string) :
  P gid key path ->
  (forall g d k p, In (g, d) groups -> d !! k = Some p -> P g k p) ->
  forall g d k p, In (g, d) (set_item groups gid key path) ->
                  d !! k = Some p -> P g k p.
Proof.
  intros Hnew Hold g d k p Hin Hk.
  apply set_item_in in Hin as [Hin | (-> & [-> | (d0 & Hd0 & ->)])].
  - eapply Hold; eauto.
  - apply lookup_singleton_Some in Hk as [<- <-]. exact Hnew.
  - destruct (decide (key = k)) as [<- | Hne].
    + rewrite lookup_insert_eq in Hk. inversion Hk; subst. exact Hnew.
    + rewrite lookup_insert_ne in Hk by exact Hne. eapply Hold; eauto.
Qed.

Lemma scan_files_stored (root : string) (files : list string)
    (groups : list (string * gmap string string)) :
  (forall fn field typ,
     In fn files -> endswith_any EXTS (lower fn) = true ->
     detect_field_and_type fn = (Some field, Some typ) ->
     P (basename root) (field ++ "_" ++ typ) (path_join root fn)) ->
  (forall g d k p, In (g, d) groups -> d !! k = Some p -> P g k p) ->
  forall g d k p,
    In (g, d) (scan_files basename path_join root files groups) ->
    d !! k = Some p -> P g k p.
Proof.
  unfold scan_files. revert groups.
  induction files as [|fn files IH]; intros groups Hnew Hold; [exact Hold|].
  cbn [fold_left]. apply IH.
  - intros fn' field typ Hin. apply Hnew. now right.
  - destruct (endswith_any EXTS (lower fn)) eqn:Ee; cbn [negb]; [|exact Hold].
    destruct (detect_field_and_type fn) as [[field|] [typ|]] eqn:Ed;
      try exact Hold.
    destruct (is_empty field); [exact Hold|].
    apply set_item_stored; [|exact Hold].
    apply Hnew; [now left | exact Ee | exact Ed].
Qed.

End ScanProvenance.

(** X22.  Every path [scan_groups] stores under a key of a group is the
    path of a file met in the walk, in a directory whose base name is the
    group identifier, with one of the image extensions (whatever its case),
    and whose name gives the field and the source of the key. *)
Theorem scan_groups_provenance (basename : string -> string)
    (path_join : string -> string -> string)
    (walk : list (string * list string)) (gid : string)
    (d : gmap string string) (k p : string) :
  In (gid, d) (scan_groups basename path_join walk) ->
  d !! k = Some p ->
  stored_from basename path_join walk gid k p.
Proof.
  unfold scan_groups.
  assert (H : forall (done todo : list (string * list string))
                     (groups : list (string * gmap string string)),
             walk = (done ++ todo)%list ->
             (forall g d k p, In (g, d) groups -> d !! k = Some p ->
                              stored_from basename path_join walk g k p) ->
             forall g d k p,
               In (g, d) (fold_left
                            (fun groups '(root, files) =>
                               scan_files basename path_join root files groups)
                            todo groups) ->
               d !! k = Some p ->
               stored_from basename path_join walk g k p).
  { intros done todo. revert done.
    induction todo as [|[root files] todo IH]; intros done groups Hw Hold;
      [exact Hold|].
    cbn [fold_left]. apply (IH (done ++ [(root, files)])%list).
    - rewrite Hw, <- app_assoc. reflexivity.
    - apply scan_files_stored; [|exact Hold].
      intros fn field typ Hin He Hd.
      exists root, files, fn, field, typ. repeat split; auto.
      rewrite Hw. apply in_or_app. right. now left. }
  apply (H [] walk []); [reflexivity | intros ? ? ? ? []].
Qed.

Lemma scan_groups_provenance_witness :
  stored_from (fun r => r) (fun a b => a ++ "/" ++ b)
              [("run7", ["Depth_V8.BMP"; "notes.txt"])]
              "run7" "depth_v8" "run7/Depth_V8.BMP".
Proof.
  apply (scan_groups_provenance
           (fun r => r) (fun a b => a ++ "/" ++ b)
           [("run7", ["Depth_V8.BMP"; "notes.txt"])] "run7"
           {["depth_v8" := "run7/Depth_V8.BMP"]}).
  - vm_compute. left. reflexivity.
  - vm_compute. reflexivity.
Defined.
